(** * Provider account configuration: the config patch engine of
    [src/commands/providers.ts]

    A shallow embedding of the functions that normalise a provider name,
    patch the configuration document when an account is added, enabled,
    disabled or deleted, and validate the flags of the add command. *)

From Stdlib Require Import ZArith Ascii String DecimalString.
From stdpp Require Import gmap strings list fin_maps.

Set Warnings "-register-all".
Local Open Scope string_scope.

(** ** JavaScript values

    The configuration document is parsed JSON: a tree of objects, arrays and
    primitives.  An object is a finite map from property names to values;
    [gmap] gives it extensional equality, so two documents are equal when
    they hold the same properties, whatever the order of insertion. *)

Inductive value : Type :=
  | VUndef
  | VNull
  | VNaN
  | VBool (b : bool)
  | VNum (n : Z)
  | VStr (s : string)
  | VArr (l : list value)
  | VObj (m : gmap string value).

(** The own enumerable properties that an object spread [{...v}] copies.
    [undefined], [null], booleans and numbers have none.  The type
    [ClawdbotConfig] gives every place where this code spreads or indexes
    the type of an object or [undefined]; strings and arrays are kept out of
    those places by the type checker and have no properties here. *)
Definition own (v : value) : gmap string value :=
  match v with VObj m => m | _ => ∅ end.

(** Property read [v?.[k]]: [undefined] when [v] is nullish or has no such
    property.  Own properties only: what this code reads under a computed
    key it spreads, and an inherited method spreads to nothing, as
    [undefined] does. *)
Definition get (v : value) (k : string) : value :=
  default VUndef (own v !! k).

(** [ToBoolean]. *)
Definition truthy (v : value) : bool :=
  match v with
  | VUndef | VNull | VNaN => false
  | VBool b => b
  | VNum n => negb (n =? 0)%Z
  | VStr s => negb (String.eqb s "")
  | VArr _ | VObj _ => true
  end.

(** [a ?? b]. *)
Definition nullish (a b : value) : value :=
  match a with VUndef | VNull => b | _ => a end.

(** The members of an object literal, evaluated left to right: a spread
    of [v] or a property [k: v] (also the computed form [[k]: v]).  A later
    member overrides an earlier one with the same name. *)
Inductive member : Type :=
  | Spread (v : value)
  | Field (k : string) (v : value).

Definition define (acc : gmap string value) (m : member) : gmap string value :=
  match m with
  | Spread v => own v ∪ acc
  | Field k v => <[k := v]> acc
  end.

Definition object (ms : list member) : value := VObj (foldl define ∅ ms).

Notation "k ':::' v" := (Field k v) (at level 60, no associativity).

(** [delete v[k]] on an object. *)
Definition delete_prop (k : string) (v : value) : value :=
  VObj (delete k (own v)).

(** [Object.keys(v)]. *)
Definition Object_keys (v : value) : list string :=
  (map_to_list (own v)).*1.

(** Truthiness of an optional string option ([params.token ? ... : ...]):
    present and not empty. *)
Definition present (o : option string) : bool :=
  match o with Some s => negb (String.eqb s "") | None => false end.

(** The conditional spread of [o ? { k: o } : {}]. *)
Definition optField (k : string) (o : option string) : member :=
  Spread (match o with
           | Some s => if negb (String.eqb s "") then object [k ::: VStr s] else object []
           | None => object []
           end).

(** ** Strings

    [String.prototype.trim] and [toLowerCase] belong to the JavaScript
    runtime, and the functions of the module are embedded over them (see
    [Host] below).  Their action on ASCII text is written out here: the
    white space characters are tab, line feed, vertical tab, form feed,
    carriage return and space; the letters [A]..[Z] are lowered.  It serves
    the example host and the statements about ASCII text. *)

Definition isWhiteSpace (c : ascii) : bool :=
  let n := nat_of_ascii c in
  (((9 <=? n) && (n <=? 13)) || (n =? 32))%nat.

Fixpoint trimStart_ascii (s : string) : string :=
  match s with
  | String c r => if isWhiteSpace c then trimStart_ascii r else s
  | EmptyString => EmptyString
  end.

Definition trimEnd_ascii (s : string) : string :=
  String.rev (trimStart_ascii (String.rev s)).

Definition trim_ascii (s : string) : string := trimEnd_ascii (trimStart_ascii s).

Definition lowerChar (c : ascii) : ascii :=
  let n := nat_of_ascii c in
  if ((65 <=? n) && (n <=? 90))%nat then ascii_of_nat (n + 32) else c.

Fixpoint toLowerCase_ascii (s : string) : string :=
  match s with
  | String c r => String (lowerChar c) (toLowerCase_ascii r)
  | EmptyString => EmptyString
  end.

(** ** Chat providers *)

Inductive ChatProvider : Type :=
  | whatsapp | telegram | discord | slack | signal | imessage.

Global Instance ChatProvider_eq_dec : EqDecision ChatProvider.
Proof. solve_decision. Defined.

(** The string of a provider kind: [ChatProvider] is a union of string
    literals in the source. *)
Definition providerName (p : ChatProvider) : string :=
  match p with
  | whatsapp => "whatsapp"
  | telegram => "telegram"
  | discord => "discord"
  | slack => "slack"
  | signal => "signal"
  | imessage => "imessage"
  end.

Definition CHAT_PROVIDERS : list ChatProvider :=
  [whatsapp; telegram; discord; slack; signal; imessage].

(** ** What the module imports

    [DEFAULT_ACCOUNT_ID] and [normalizeAccountId] come from
    [routing/session-key], which is not part of the sources at hand;
    [Number], [String.prototype.trim] and [String.prototype.toLowerCase] are
    JavaScript's own.  The module is embedded over any choice of the
    five. *)
Class Host : Type := {
  DEFAULT_ACCOUNT_ID : string;
  normalizeAccountId : option string → string;
  Number : string → value;
  trim : string → string;
  toLowerCase : string → string
}.

Section Normalizer.
Context `{Host}.

(** [normalizeChatProvider]: [CHAT_PROVIDERS.includes(normalized)] and the
    cast of [normalized] to [ChatProvider] are one search of the list. *)
Definition normalizeChatProvider (raw : option string) : option ChatProvider :=
  let trimmed := toLowerCase (trim (default "" raw)) in
  if String.eqb trimmed "" then None
  else
    let normalized := if String.eqb trimmed "imsg" then "imessage" else trimmed in
    find (fun p => String.eqb (providerName p) normalized) CHAT_PROVIDERS.

(** The same function in the words of the specification: a match of the
    trimmed, lowered input against the six kinds and the alias. *)
Definition normalizeProvider_spec (raw : option string) : option ChatProvider :=
  let t := toLowerCase (trim (default "" raw)) in
  if String.eqb t "whatsapp" then Some whatsapp
  else if String.eqb t "telegram" then Some telegram
  else if String.eqb t "discord" then Some discord
  else if String.eqb t "slack" then Some slack
  else if String.eqb t "signal" then Some signal
  else if String.eqb t "imessage" then Some imessage
  else if String.eqb t "imsg" then Some imessage
  else None.

End Normalizer.

(** Modelled from the spec: [normalizeAccountId] of [routing/session-key]
    "trims, and maps empty/absent to the Default Account sentinel; non-empty
    values pass through unchanged". *)
Definition normalizeAccountId_spec (sentinel : string) (raw : option string) : string :=
  let trimmed := trim_ascii (default "" raw) in
  if String.eqb trimmed "" then sentinel else trimmed.

(** [Number] on the signed decimal numerals a port is written with; any
    other text is read as [NaN]. *)
Definition Number_decimal (s : string) : value :=
  match NilEmpty.int_of_string (trim_ascii s) with
  | Some d => VNum (Z.of_int d)
  | None => VNaN
  end.

(** The host used for the concrete examples: its texts are ASCII. *)
Definition exampleHost : Host := {|
  DEFAULT_ACCOUNT_ID := "default";
  normalizeAccountId := normalizeAccountId_spec "default";
  Number := Number_decimal;
  trim := trim_ascii;
  toLowerCase := toLowerCase_ascii
|}.

(** ** The patch engine *)

Section PatchEngine.
Context `{Host}.

(** The parameters of [applyProviderAccountConfig]. *)
Record AccountParams : Type := {
  provider : ChatProvider;
  accountId : string;
  name : option string;
  token : option string;
  tokenFile : option string;
  botToken : option string;
  appToken : option string;
  signalNumber : option string;
  cliPath : option string;
  dbPath : option string;
  service : option string;
  region : option string;
  authDir : option string;
  httpUrl : option string;
  httpHost : option string;
  httpPort : option string;
  useEnv : option bool
}.

(** [typeof baseConfig === "object" && baseConfig]. *)
Definition isObject (v : value) : bool :=
  match v with VObj _ | VArr _ => true | _ => false end.

Definition applyAccountName (cfg : value) (provider : ChatProvider)
    (accountId : string) (name : option string) : value :=
  let trimmed := trim <$> name in
  if negb (present trimmed) then cfg
  else
    let trimmed := default "" trimmed in
    let accountId := normalizeAccountId (Some accountId) in
    match provider with
    | whatsapp =>
        object [Spread cfg;
          "whatsapp" ::: object [Spread (get cfg "whatsapp");
            "accounts" ::: object [Spread (get (get cfg "whatsapp") "accounts");
              accountId ::: object [
                Spread (get (get (get cfg "whatsapp") "accounts") accountId);
                "name" ::: VStr trimmed]]]]
    | _ =>
        let key := providerName provider in
        if String.eqb accountId DEFAULT_ACCOUNT_ID then
          let baseConfig := get cfg key in
          let safeBase := if isObject baseConfig then baseConfig else object [] in
          object [Spread cfg;
            key ::: object [Spread safeBase; "name" ::: VStr trimmed]]
        else
          let base := get cfg key in
          let baseAccounts := nullish (get base "accounts") (object []) in
          let existingAccount := nullish (get baseAccounts accountId) (object []) in
          object [Spread cfg;
            key ::: object [Spread base;
              "accounts" ::: object [Spread baseAccounts;
                accountId ::: object [Spread existingAccount;
                                      "name" ::: VStr trimmed]]]]
    end.

(** The members shared by the default and the named branch of a provider:
    each is a conditional spread of one optional parameter. *)
Definition nameField (name : option string) : member := optField "name" name.

Definition applyProviderAccountConfig (cfg : value) (params : AccountParams) : value :=
  let accountId := normalizeAccountId (Some (accountId params)) in
  let name :=
    match trim <$> name params with
    | Some t => if negb (String.eqb t "") then Some t else None
    | None => None
    end in
  let next := applyAccountName cfg (provider params) accountId name in
  let useEnv := match useEnv params with Some true => true | _ => false end in
  match provider params with
  | whatsapp =>
      let entry := object [
        Spread (get (get (get next "whatsapp") "accounts") accountId);
        optField "authDir" (authDir params);
        "enabled" ::: VBool true;
        nameField name] in
      object [Spread next;
        "whatsapp" ::: object [Spread (get next "whatsapp");
          "accounts" ::: object [Spread (get (get next "whatsapp") "accounts");
            accountId ::: entry]]]
  | telegram =>
      if String.eqb accountId DEFAULT_ACCOUNT_ID then
        object [Spread next;
          "telegram" ::: object [Spread (get next "telegram");
            "enabled" ::: VBool true;
            Spread (if useEnv then object []
                    else if present (tokenFile params)
                      then object ["tokenFile" ::: VStr (default "" (tokenFile params))]
                    else if present (token params)
                      then object ["botToken" ::: VStr (default "" (token params))]
                    else object []);
            nameField name]]
      else
        object [Spread next;
          "telegram" ::: object [Spread (get next "telegram");
            "enabled" ::: VBool true;
            "accounts" ::: object [Spread (get (get next "telegram") "accounts");
              accountId ::: object [
                Spread (get (get (get next "telegram") "accounts") accountId);
                "enabled" ::: VBool true;
                Spread (if present (tokenFile params)
                          then object ["tokenFile" ::: VStr (default "" (tokenFile params))]
                        else if present (token params)
                          then object ["botToken" ::: VStr (default "" (token params))]
                        else object []);
                nameField name]]]]
  | discord =>
      if String.eqb accountId DEFAULT_ACCOUNT_ID then
        object [Spread next;
          "discord" ::: object [Spread (get next "discord");
            "enabled" ::: VBool true;
            Spread (if useEnv then object []
                    else if present (token params)
                      then object ["token" ::: VStr (default "" (token params))]
                    else object []);
            nameField name]]
      else
        object [Spread next;
          "discord" ::: object [Spread (get next "discord");
            "enabled" ::: VBool true;
            "accounts" ::: object [Spread (get (get next "discord") "accounts");
              accountId ::: object [
                Spread (get (get (get next "discord") "accounts") accountId);
                "enabled" ::: VBool true;
                optField "token" (token params);
                nameField name]]]]
  | slack =>
      if String.eqb accountId DEFAULT_ACCOUNT_ID then
        object [Spread next;
          "slack" ::: object [Spread (get next "slack");
            "enabled" ::: VBool true;
            Spread (if useEnv then object []
                    else object [optField "botToken" (botToken params);
                                 optField "appToken" (appToken params)]);
            nameField name]]
      else
        object [Spread next;
          "slack" ::: object [Spread (get next "slack");
            "enabled" ::: VBool true;
            "accounts" ::: object [Spread (get (get next "slack") "accounts");
              accountId ::: object [
                Spread (get (get (get next "slack") "accounts") accountId);
                "enabled" ::: VBool true;
                optField "botToken" (botToken params);
                optField "appToken" (appToken params);
                nameField name]]]]
  | signal =>
      let httpPortField :=
        Spread (if present (httpPort params)
                  then object ["httpPort" ::: Number (default "" (httpPort params))]
                else object []) in
      if String.eqb accountId DEFAULT_ACCOUNT_ID then
        object [Spread next;
          "signal" ::: object [Spread (get next "signal");
            "enabled" ::: VBool true;
            optField "account" (signalNumber params);
            optField "cliPath" (cliPath params);
            optField "httpUrl" (httpUrl params);
            optField "httpHost" (httpHost params);
            httpPortField;
            nameField name]]
      else
        object [Spread next;
          "signal" ::: object [Spread (get next "signal");
            "enabled" ::: VBool true;
            "accounts" ::: object [Spread (get (get next "signal") "accounts");
              accountId ::: object [
                Spread (get (get (get next "signal") "accounts") accountId);
                "enabled" ::: VBool true;
                optField "account" (signalNumber params);
                optField "cliPath" (cliPath params);
                optField "httpUrl" (httpUrl params);
                optField "httpHost" (httpHost params);
                httpPortField;
                nameField name]]]]
  | imessage =>
      if String.eqb accountId DEFAULT_ACCOUNT_ID then
        object [Spread next;
          "imessage" ::: object [Spread (get next "imessage");
            "enabled" ::: VBool true;
            optField "cliPath" (cliPath params);
            optField "dbPath" (dbPath params);
            optField "service" (service params);
            optField "region" (region params);
            nameField name]]
      else
        object [Spread next;
          "imessage" ::: object [Spread (get next "imessage");
            "enabled" ::: VBool true;
            "accounts" ::: object [Spread (get (get next "imessage") "accounts");
              accountId ::: object [
                Spread (get (get (get next "imessage") "accounts") accountId);
                "enabled" ::: VBool true;
                optField "cliPath" (cliPath params);
                optField "dbPath" (dbPath params);
                optField "service" (service params);
                optField "region" (region params);
                nameField name]]]]
  end.

(** [setAccountEnabled] and [deleteAccount] are closures of
    [providersRemoveCommand] over the document [next] and over
    [accountKey = accountId || DEFAULT_ACCOUNT_ID]; each assigns a new
    document to [next].  Here they take both and return the new document. *)

Definition setAccountEnabled (next : value) (accountKey : string)
    (key : ChatProvider) (enabled : bool) : value :=
  match key with
  | whatsapp =>
      object [Spread next;
        "whatsapp" ::: object [Spread (get next "whatsapp");
          "accounts" ::: object [Spread (get (get next "whatsapp") "accounts");
            accountKey ::: object [
              Spread (get (get (get next "whatsapp") "accounts") accountKey);
              "enabled" ::: VBool enabled]]]]
  | _ =>
      let base := get next (providerName key) in
      let baseAccounts := nullish (get base "accounts") (object []) in
      let existingAccount := nullish (get baseAccounts accountKey) (object []) in
      if String.eqb accountKey DEFAULT_ACCOUNT_ID && negb (truthy (get base "accounts")) then
        object [Spread next;
          providerName key ::: object [Spread base; "enabled" ::: VBool enabled]]
      else
        object [Spread next;
          providerName key ::: object [Spread base;
            "accounts" ::: object [Spread baseAccounts;
              accountKey ::: object [Spread existingAccount;
                                     "enabled" ::: VBool enabled]]]]
  end.

(** [Object.keys(accounts).length ? accounts : undefined]. *)
Definition accountsOrUndefined (accounts : value) : value :=
  if (length (Object_keys accounts) =? 0)%nat then VUndef else accounts.

(** The singleton fields that the default branch of [deleteAccount] sets to
    [undefined], per provider. *)
Definition clearedSingletons (key : ChatProvider) : value :=
  match key with
  | telegram =>
      object ["botToken" ::: VUndef; "tokenFile" ::: VUndef; "name" ::: VUndef]
  | discord =>
      object ["token" ::: VUndef; "name" ::: VUndef]
  | slack =>
      object ["botToken" ::: VUndef; "appToken" ::: VUndef; "name" ::: VUndef]
  | signal =>
      object ["account" ::: VUndef; "httpUrl" ::: VUndef; "httpHost" ::: VUndef;
              "httpPort" ::: VUndef; "cliPath" ::: VUndef; "name" ::: VUndef]
  | imessage =>
      object ["cliPath" ::: VUndef; "dbPath" ::: VUndef; "service" ::: VUndef;
              "region" ::: VUndef; "name" ::: VUndef]
  | whatsapp => object []
  end.

Definition deleteAccount (next : value) (accountKey : string)
    (key : ChatProvider) : value :=
  match key with
  | whatsapp =>
      let accounts := object [Spread (get (get next "whatsapp") "accounts")] in
      let accounts := delete_prop accountKey accounts in
      object [Spread next;
        "whatsapp" ::: object [Spread (get next "whatsapp");
          "accounts" ::: accountsOrUndefined accounts]]
  | _ =>
      let base := get next (providerName key) in
      if negb (String.eqb accountKey DEFAULT_ACCOUNT_ID) then
        let accounts := object [Spread (get base "accounts")] in
        let accounts := delete_prop accountKey accounts in
        object [Spread next;
          providerName key ::: object [Spread base;
            "accounts" ::: accountsOrUndefined accounts]]
      else if truthy (get base "accounts")
              && (0 <? length (Object_keys (get base "accounts")))%nat then
        let accounts := object [Spread (get base "accounts")] in
        let accounts := delete_prop accountKey accounts in
        object [Spread next;
          providerName key ::: object [Spread base;
            "accounts" ::: accountsOrUndefined accounts;
            Spread (clearedSingletons key)]]
      else
        (* No accounts map: remove entire provider section. *)
        let clone := object [Spread next] in
        delete_prop (providerName key) clone
  end.

End PatchEngine.

(** ** The commands

    A command reads one configuration snapshot and talks to its runtime
    ([runtime.error], [runtime.exit], [runtime.log]) and to the config file
    ([writeConfigFile]).  What it does is recorded as the list of these
    calls, in order. *)

Inductive event : Type :=
  | EError (msg : string)
  | EExit (code : Z)
  | ELog (msg : string)
  | EWriteConfig (doc : value).

Record ConfigIssue : Type := { issue_path : string; issue_message : string }.

(** The result of [readConfigFileSnapshot]. *)
Record ConfigFileSnapshot : Type := {
  snap_exists : bool;
  snap_valid : bool;
  snap_config : value;
  snap_issues : list ConfigIssue
}.

Definition newline : string := String (ascii_of_nat 10) EmptyString.
Definition quote : string := String (ascii_of_nat 34) EmptyString.

(** [lines.join(sep)]. *)
Fixpoint join (sep : string) (lines : list string) : string :=
  match lines with
  | [] => ""
  | [l] => l
  | l :: rest => l ++ sep ++ join sep rest
  end.

(** [requireValidConfig]: the calls made on the runtime and the value
    returned ([null] for a snapshot that exists and is not valid). *)
Definition requireValidConfig (snapshot : ConfigFileSnapshot) : list event * value :=
  if snap_exists snapshot && negb (snap_valid snapshot) then
    let issues :=
      if (0 <? length (snap_issues snapshot))%nat then
        join newline
          (map (fun issue => "- " ++ issue_path issue ++ ": " ++ issue_message issue)
               (snap_issues snapshot))
      else "Unknown validation issue." in
    ([EError ("Config invalid:" ++ newline ++ issues);
      EError "Fix the config or run clawdbot doctor.";
      EExit 1], VNull)
  else ([], snap_config snapshot).

Module ProvidersAddOptions.
Record t : Type := {
  provider : option string;
  account : option string;
  name : option string;
  token : option string;
  tokenFile : option string;
  botToken : option string;
  appToken : option string;
  signalNumber : option string;
  cliPath : option string;
  dbPath : option string;
  service : option string;
  region : option string;
  authDir : option string;
  httpUrl : option string;
  httpHost : option string;
  httpPort : option string;
  useEnv : option bool
}.
End ProvidersAddOptions.

Module ProvidersRemoveOptions.
Record t : Type := {
  provider : option string;
  account : option string;
  delete_ : option bool
}.
End ProvidersRemoveOptions.

Section Commands.
Context `{Host}.

(** [providersAddCommand] in its flag-driven mode ([params?.hasFlags] is
    not [false]); the wizard mode runs on the prompter and on
    [setupProviders], which are outside these sources.  Each check of the
    source ends in [runtime.error], [runtime.exit(1)] and [return]. *)
Definition providersAddCommand (snapshot : ConfigFileSnapshot)
    (opts : ProvidersAddOptions.t) : list event :=
  let '(out, cfg) := requireValidConfig snapshot in
  if negb (truthy cfg) then out
  else
    let fail (msg : string) : list event := (out ++ [EError msg; EExit 1])%list in
    match normalizeChatProvider (ProvidersAddOptions.provider opts) with
    | None =>
        fail ("Unknown provider: " ++ default "" (ProvidersAddOptions.provider opts))
    | Some provider =>
        let accountId := normalizeAccountId (ProvidersAddOptions.account opts) in
        let useEnv :=
          match ProvidersAddOptions.useEnv opts with Some true => true | _ => false end in
        let isDefault := String.eqb accountId DEFAULT_ACCOUNT_ID in
        let has (field : ProvidersAddOptions.t → option string) := present (field opts) in
        if bool_decide (provider = telegram) && useEnv && negb isDefault then
          fail "TELEGRAM_BOT_TOKEN can only be used for the default account."
        else if bool_decide (provider = telegram) && negb useEnv
                && negb (has ProvidersAddOptions.token)
                && negb (has ProvidersAddOptions.tokenFile) then
          fail "Telegram requires --token or --token-file (or --use-env)."
        else if bool_decide (provider = discord) && useEnv && negb isDefault then
          fail "DISCORD_BOT_TOKEN can only be used for the default account."
        else if bool_decide (provider = discord) && negb useEnv
                && negb (has ProvidersAddOptions.token) then
          fail "Discord requires --token (or --use-env)."
        else if bool_decide (provider = slack) && useEnv && negb isDefault then
          fail "Slack env tokens can only be used for the default account."
        else if bool_decide (provider = slack) && negb useEnv
                && (negb (has ProvidersAddOptions.botToken)
                    || negb (has ProvidersAddOptions.appToken)) then
          fail "Slack requires --bot-token and --app-token (or --use-env)."
        else if bool_decide (provider = signal)
                && negb (has ProvidersAddOptions.signalNumber)
                && negb (has ProvidersAddOptions.httpUrl)
                && negb (has ProvidersAddOptions.httpHost)
                && negb (has ProvidersAddOptions.httpPort)
                && negb (has ProvidersAddOptions.cliPath) then
          fail "Signal requires --signal-number or --http-url/--http-host/--http-port/--cli-path."
        else
          let nextConfig := applyProviderAccountConfig cfg {|
            provider := provider;
            accountId := accountId;
            name := ProvidersAddOptions.name opts;
            token := ProvidersAddOptions.token opts;
            tokenFile := ProvidersAddOptions.tokenFile opts;
            botToken := ProvidersAddOptions.botToken opts;
            appToken := ProvidersAddOptions.appToken opts;
            signalNumber := ProvidersAddOptions.signalNumber opts;
            cliPath := ProvidersAddOptions.cliPath opts;
            dbPath := ProvidersAddOptions.dbPath opts;
            service := ProvidersAddOptions.service opts;
            region := ProvidersAddOptions.region opts;
            authDir := ProvidersAddOptions.authDir opts;
            httpUrl := ProvidersAddOptions.httpUrl opts;
            httpHost := ProvidersAddOptions.httpHost opts;
            httpPort := ProvidersAddOptions.httpPort opts;
            useEnv := Some useEnv
          |} in
          (out ++ [EWriteConfig nextConfig;
                   ELog ("Added " ++ providerName provider ++ " account "
                         ++ quote ++ accountId ++ quote ++ ".")])%list
    end.

(** [providersRemoveCommand] in its flag-driven mode; [confirmed] is the
    answer of the prompter to the question asked when [--delete] is not
    given. *)
Definition providersRemoveCommand (snapshot : ConfigFileSnapshot)
    (opts : ProvidersRemoveOptions.t) (confirmed : bool) : list event :=
  let '(out, cfg) := requireValidConfig snapshot in
  if negb (truthy cfg) then out
  else
    let accountId := normalizeAccountId (ProvidersRemoveOptions.account opts) in
    let deleteConfig :=
      match ProvidersRemoveOptions.delete_ opts with Some true => true | _ => false end in
    match normalizeChatProvider (ProvidersRemoveOptions.provider opts) with
    | None =>
        (out ++ [EError "Provider is required. Use --provider <name>."; EExit 1])%list
    | Some provider =>
        if negb deleteConfig && negb confirmed then out
        else
          let next := object [Spread cfg] in
          let accountKey :=
            if String.eqb accountId "" then DEFAULT_ACCOUNT_ID else accountId in
          let next :=
            if deleteConfig then deleteAccount next accountKey provider
            else setAccountEnabled next accountKey provider false in
          (out ++ [EWriteConfig next;
                   ELog ((if deleteConfig then "Deleted " else "Disabled ")
                         ++ providerName provider ++ " account "
                         ++ quote ++ accountKey ++ quote ++ ".")])%list
    end.

End Commands.


(** ** The status command

    [providersStatusCommand] asks the gateway for the status of the
    providers and renders the answer.  The answer of [callGateway] is an
    input here: a payload, or the text of the error it threw.  [chalk.green],
    [JSON.stringify] and the text of the [TypeError] of a property read on
    [null] or [undefined] belong to the runtime. *)

Class Terminal : Type := {
  green : string → string;
  JSON_stringify : value → string;
  typeErrorText : value → string → string
}.

(** The result of code that may throw: a value, or the text [String(err)]
    of what was thrown. *)
Inductive outcome (A : Type) : Type :=
  | Returned (a : A)
  | Thrown (err : string).
Arguments Returned {A} a.
Arguments Thrown {A} err.

Section Status.
Context `{Terminal}.

(** A property read [v.k] without [?.]: it throws on [null] and
    [undefined]. *)
Definition read (v : value) (k : string) : outcome value :=
  match v with
  | VUndef | VNull => Thrown (typeErrorText v k)
  | _ => Returned (get v k)
  end.

(** [if (typeof v === "boolean") bits.push(v ? yes : no)]. *)
Definition bit (v : value) (yes no : string) : list string :=
  match v with
  | VBool b => [if b then yes else no]
  | _ => []
  end.

(** One pass of the function given to [accounts.map] in [accountLines]. *)
Definition accountLine (label : string) (account : value) : outcome string :=
  match read account "enabled" with
  | Thrown err => Thrown err
  | Returned enabled =>
      let probe := get account "probe" in
      let bits :=
        (bit enabled "enabled" "disabled"
         ++ bit (get account "configured") "configured" "not configured"
         ++ bit (get account "linked") "linked" "not linked"
         ++ bit (get account "running") "running" "stopped"
         ++ (if truthy probe then bit (get probe "ok") "works" "probe failed"
             else []))%list in
      let accountId :=
        match get account "accountId" with VStr s => s | _ => "default" end in
      let labelText := label ++ " " ++ accountId in
      Returned ("- " ++ labelText ++ ": " ++ join ", " bits)
  end.

Fixpoint accountLines (label : string) (accounts : list value)
    : outcome (list string) :=
  match accounts with
  | [] => Returned []
  | account :: rest =>
      match accountLine label account with
      | Thrown err => Thrown err
      | Returned line =>
          match accountLines label rest with
          | Thrown err => Thrown err
          | Returned lines => Returned (line :: lines)
          end
      end
  end.

(** [if (Array.isArray(data[field])) lines.push(...accountLines(label,
    data[field]))]. *)
Definition pushAccounts (data : value) (label field : string)
    (lines : list string) : outcome (list string) :=
  match read data field with
  | Thrown err => Thrown err
  | Returned (VArr accounts) =>
      match accountLines label accounts with
      | Thrown err => Thrown err
      | Returned more => Returned (lines ++ more)%list
      end
  | Returned _ => Returned lines
  end.

(** The six sections of the status, in the order of the source. *)
Definition statusSections : list (string * string) :=
  [("WhatsApp", "whatsappAccounts"); ("Telegram", "telegramAccounts");
   ("Discord", "discordAccounts"); ("Slack", "slackAccounts");
   ("Signal", "signalAccounts"); ("iMessage", "imessageAccounts")].

Fixpoint pushSections (data : value) (sections : list (string * string))
    (lines : list string) : outcome (list string) :=
  match sections with
  | [] => Returned lines
  | (label, field) :: rest =>
      match pushAccounts data label field lines with
      | Thrown err => Thrown err
      | Returned lines => pushSections data rest lines
      end
  end.

(** The lines of the status in its readable form. *)
Definition statusLines (payload : value) : outcome (list string) :=
  pushSections payload statusSections [green "Gateway reachable."].

(** [providersStatusCommand]: everything after the call of the gateway sits
    in one [try], whose [catch] reports the gateway as not reachable. *)
Definition providersStatusCommand (json : option bool) (gateway : outcome value)
    : list event :=
  let unreachable (err : string) :=
    [EError ("Gateway not reachable: " ++ err); EExit 1] in
  match gateway with
  | Thrown err => unreachable err
  | Returned payload =>
      if match json with Some true => true | _ => false end then
        [ELog (JSON_stringify payload)]
      else
        match statusLines payload with
        | Thrown err => unreachable err
        | Returned lines => [ELog (join newline lines)]
        end
  end.

End Status.

(** ** The Feishu client ([extensions/feishu/src/client.ts])

    [Lark.Domain] is an enumeration of the SDK; a custom domain is a URL. *)

Inductive LarkDomain : Type :=
  | Domain_Feishu
  | Domain_Lark
  | Domain_url (url : string).

(** [s.replace(/\/+$/, "")]: without the slashes at the end. *)
Fixpoint dropSlashes (s : string) : string :=
  match s with
  | String c r => if Ascii.eqb c "/" then dropSlashes r else s
  | EmptyString => EmptyString
  end.

Definition withoutTrailingSlashes (s : string) : string :=
  String.rev (dropSlashes (String.rev s)).

Definition resolveDomain (domain : string) : LarkDomain :=
  if String.eqb domain "lark" then Domain_Lark
  else if String.eqb domain "feishu" then Domain_Feishu
  else Domain_url (withoutTrailingSlashes domain).

(** What [resolveFeishuCredentials] returns, as far as the client uses
    it. *)
Record FeishuCredentials : Type := {
  appId : string;
  appSecret : string;
  domain : string
}.

(** A [Lark.Client]: the options it was built with, and a serial number that
    tells one object from the next. *)
Record LarkClient : Type := {
  serial : nat;
  client_appId : string;
  client_appSecret : string;
  client_domain : LarkDomain
}.

(** The module variables [cachedClient] and [cachedConfig], and the number
    of clients built so far. *)
Record ClientCache : Type := {
  cachedClient : option LarkClient;
  cachedConfig : option FeishuCredentials;
  built : nat
}.

Definition sameCredentials (a b : FeishuCredentials) : bool :=
  String.eqb (appId a) (appId b)
  && String.eqb (appSecret a) (appSecret b)
  && String.eqb (domain a) (domain b).

Section FeishuClient.
(** [resolveFeishuCredentials] of [accounts.ts], outside these sources. *)
Variable resolveFeishuCredentials : value → option FeishuCredentials.

Definition createFeishuClient (cfg : value) (cache : ClientCache)
    : outcome LarkClient * ClientCache :=
  match resolveFeishuCredentials cfg with
  | None =>
      (Thrown "Error: Feishu credentials not configured (appId, appSecret required)",
       cache)
  | Some creds =>
      match cachedClient cache, cachedConfig cache with
      | Some client, Some config =>
          if sameCredentials config creds then (Returned client, cache)
          else
            let client := {| serial := built cache;
                             client_appId := appId creds;
                             client_appSecret := appSecret creds;
                             client_domain := resolveDomain (domain creds) |} in
            (Returned client,
             {| cachedClient := Some client; cachedConfig := Some creds;
                built := S (built cache) |})
      | _, _ =>
          let client := {| serial := built cache;
                           client_appId := appId creds;
                           client_appSecret := appSecret creds;
                           client_domain := resolveDomain (domain creds) |} in
          (Returned client,
           {| cachedClient := Some client; cachedConfig := Some creds;
              built := S (built cache) |})
      end
  end.

Definition clearClientCache (cache : ClientCache) : ClientCache :=
  {| cachedClient := None; cachedConfig := None; built := built cache |}.

End FeishuClient.

(** * Notions used by the properties *)

(** ** Object literals as patches *)

Definition Idempotent (F : value → value) : Prop := ∀ v, F (F v) = F v.

(** [{...v, [k]: F(v?.[k])}]: rewrite one property of an object. *)
Definition upd (k : string) (F : value → value) (v : value) : value :=
  VObj (<[k := F (get v k)]> (own v)).

(** [{...v, ...R}]: lay the properties [R] over an object. *)
Definition patch (R : gmap string value) (v : value) : value :=
  VObj (R ∪ own v).

(** The properties that a list of members defines by itself. *)
Definition fields (ms : list member) : gmap string value := foldl define ∅ ms.

(** The two ways in which the engine rewrites a provider section: lay
    fields over the section itself, or lay fields [P] over the section and
    fields [E] over the entry [a] of its accounts map. *)
Definition flatStep (R : gmap string value) : value → value := patch R.

Definition entryStep (P : gmap string value) (a : string)
    (E : gmap string value) : value → value :=
  λ sec, upd "accounts" (upd a (patch E)) (patch P sec).

Inductive Step : (value → value) → Prop :=
  | Step_flat R : R !! "accounts" = None → Step (flatStep R)
  | Step_entry P a E : P !! "accounts" = None → Step (entryStep P a E).

(** ** Sections and accounts *)

(** The section holds an accounts map with at least one entry. *)
Definition hasAccounts (sec : value) : bool :=
  match get sec "accounts" with
  | VObj m => negb (size m =? 0)%nat
  | _ => false
  end.

(** The accounts property of a section reads as [undefined] (an absent key,
    or a key set to [undefined], which the JSON written to disk omits) or is
    a map with at least one entry. *)
Definition accountsAbsentOrNonEmpty (sec : value) : bool :=
  match get sec "accounts" with
  | VUndef => true
  | VObj m => negb (size m =? 0)%nat
  | _ => false
  end.

(** The singleton credential and name fields of a provider section. *)
Definition singletonFields (key : ChatProvider) : list string :=
  match key with
  | whatsapp => []
  | telegram => ["botToken"; "tokenFile"; "name"]
  | discord => ["token"; "name"]
  | slack => ["botToken"; "appToken"; "name"]
  | signal => ["account"; "httpUrl"; "httpHost"; "httpPort"; "cliPath"; "name"]
  | imessage => ["cliPath"; "dbPath"; "service"; "region"; "name"]
  end.

(** [deleteAccount] on one entry of an accounts map. *)
Definition removeEntry (k : string) (accounts : value) : value :=
  accountsOrUndefined (delete_prop k (object [Spread accounts])).

(** [deleteAccount] on a section whose default account is deleted while the
    accounts map has entries. *)
Definition clearStep (key : ChatProvider) (accountKey : string) : value → value :=
  λ sec, patch (own (clearedSingletons key))
               (upd "accounts" (removeEntry accountKey) sec).

(** No call of [writeConfigFile] in a trace. *)
Definition noWrite (trace : list event) : Prop :=
  ∀ doc, EWriteConfig doc ∉ trace.

(** A snapshot that [requireValidConfig] lets through with a document. *)
Definition usable (snapshot : ConfigFileSnapshot) : Prop :=
  (snap_exists snapshot && negb (snap_valid snapshot)) = false
  ∧ truthy (snap_config snapshot) = true.

Section Notions.
Context `{Host}.

(** The display name as [applyProviderAccountConfig] passes it on:
    [params.name?.trim() || undefined]. *)
Definition trimmedName (params : AccountParams) : option string :=
  match trim <$> name params with
  | Some t => if negb (String.eqb t "") then Some t else None
  | None => None
  end.

(** The config field [k] is fed by a parameter that the request supplies:
    the table of field sets per provider. *)
Definition requested (params : AccountParams) (k : string) : bool :=
  (String.eqb k "name" && present (trim <$> name params))
  || match provider params with
     | whatsapp => String.eqb k "authDir" && present (authDir params)
     | telegram =>
         (String.eqb k "tokenFile" && present (tokenFile params))
         || (String.eqb k "botToken" && present (token params))
     | discord => String.eqb k "token" && present (token params)
     | slack =>
         (String.eqb k "botToken" && present (botToken params))
         || (String.eqb k "appToken" && present (appToken params))
     | signal =>
         (String.eqb k "account" && present (signalNumber params))
         || (String.eqb k "cliPath" && present (cliPath params))
         || (String.eqb k "httpUrl" && present (httpUrl params))
         || (String.eqb k "httpHost" && present (httpHost params))
         || (String.eqb k "httpPort" && present (httpPort params))
     | imessage =>
         (String.eqb k "cliPath" && present (cliPath params))
         || (String.eqb k "dbPath" && present (dbPath params))
         || (String.eqb k "service" && present (service params))
         || (String.eqb k "region" && present (region params))
     end.

(** The record of an account inside a provider section: the entry of the
    accounts map, or the section itself for the default account of a
    provider other than whatsapp. *)
Definition recordOf (p : ChatProvider) (a : string) (sec : value) : value :=
  match p with
  | whatsapp => get (get sec "accounts") a
  | _ =>
      if String.eqb a DEFAULT_ACCOUNT_ID then sec
      else get (get sec "accounts") a
  end.

Definition accountRecord (doc : value) (p : ChatProvider) (a : string) : value :=
  recordOf p a (get doc (providerName p)).

Definition nameStep (p : ChatProvider) (a : string) (t : string) : value → value :=
  match p with
  | whatsapp => entryStep ∅ a {[ "name" := VStr t ]}
  | _ =>
      if String.eqb a DEFAULT_ACCOUNT_ID then flatStep {[ "name" := VStr t ]}
      else entryStep ∅ a {[ "name" := VStr t ]}
  end.

Definition configStep (p : ChatProvider) (a : string)
    (E : gmap string value) : value → value :=
  match p with
  | whatsapp => entryStep ∅ a E
  | _ =>
      if String.eqb a DEFAULT_ACCOUNT_ID then flatStep E
      else entryStep {[ "enabled" := VBool true ]} a E
  end.

(** Deleting the default account of a section without an accounts map (or
    with an empty one), as the specification words it: the singleton fields
    are cleared on the section itself, and the section stays while any state
    is left on it. *)
Definition sectionClearedInPlace (next : value) (key : ChatProvider) : Prop :=
  let cleared := patch (own (clearedSingletons key)) (get next (providerName key)) in
  (∃ k, get cleared k ≠ VUndef) →
  get (deleteAccount next DEFAULT_ACCOUNT_ID key) (providerName key) = cleared.

(** Deleting the default account of a section with a non-empty accounts
    map, as the specification words it: only that map changes. *)
Definition onlyAccountsChange (next : value) (key : ChatProvider) : Prop :=
  ∀ k, k ≠ "accounts" →
    get (get (deleteAccount next DEFAULT_ACCOUNT_ID key) (providerName key)) k
    = get (get next (providerName key)) k.

(** The validation failures of the flag-driven add command, each with the
    message it reports. *)
Inductive AddRejected (opts : ProvidersAddOptions.t) : string → Prop :=
  | Rejected_unknown :
      normalizeChatProvider (ProvidersAddOptions.provider opts) = None →
      AddRejected opts
        ("Unknown provider: " ++ default "" (ProvidersAddOptions.provider opts))
  | Rejected_telegram_token :
      normalizeChatProvider (ProvidersAddOptions.provider opts) = Some telegram →
      present (ProvidersAddOptions.token opts) = false →
      present (ProvidersAddOptions.tokenFile opts) = false →
      ProvidersAddOptions.useEnv opts ≠ Some true →
      AddRejected opts "Telegram requires --token or --token-file (or --use-env)."
  | Rejected_discord_token :
      normalizeChatProvider (ProvidersAddOptions.provider opts) = Some discord →
      present (ProvidersAddOptions.token opts) = false →
      ProvidersAddOptions.useEnv opts ≠ Some true →
      AddRejected opts "Discord requires --token (or --use-env)."
  | Rejected_slack_tokens :
      normalizeChatProvider (ProvidersAddOptions.provider opts) = Some slack →
      ¬ (present (ProvidersAddOptions.botToken opts) = true
         ∧ present (ProvidersAddOptions.appToken opts) = true) →
      ProvidersAddOptions.useEnv opts ≠ Some true →
      AddRejected opts "Slack requires --bot-token and --app-token (or --use-env)."
  | Rejected_signal :
      normalizeChatProvider (ProvidersAddOptions.provider opts) = Some signal →
      present (ProvidersAddOptions.signalNumber opts) = false →
      present (ProvidersAddOptions.httpUrl opts) = false →
      present (ProvidersAddOptions.httpHost opts) = false →
      present (ProvidersAddOptions.httpPort opts) = false →
      present (ProvidersAddOptions.cliPath opts) = false →
      AddRejected opts
        "Signal requires --signal-number or --http-url/--http-host/--http-port/--cli-path."
  | Rejected_telegram_env :
      normalizeChatProvider (ProvidersAddOptions.provider opts) = Some telegram →
      ProvidersAddOptions.useEnv opts = Some true →
      normalizeAccountId (ProvidersAddOptions.account opts) ≠ DEFAULT_ACCOUNT_ID →
      AddRejected opts "TELEGRAM_BOT_TOKEN can only be used for the default account."
  | Rejected_discord_env :
      normalizeChatProvider (ProvidersAddOptions.provider opts) = Some discord →
      ProvidersAddOptions.useEnv opts = Some true →
      normalizeAccountId (ProvidersAddOptions.account opts) ≠ DEFAULT_ACCOUNT_ID →
      AddRejected opts "DISCORD_BOT_TOKEN can only be used for the default account."
  | Rejected_slack_env :
      normalizeChatProvider (ProvidersAddOptions.provider opts) = Some slack →
      ProvidersAddOptions.useEnv opts = Some true →
      normalizeAccountId (ProvidersAddOptions.account opts) ≠ DEFAULT_ACCOUNT_ID →
      AddRejected opts "Slack env tokens can only be used for the default account.".

End Notions.

(** ** Notions for the provider normalizer *)

(** Text made of ASCII characters only. *)
Fixpoint isAscii (s : string) : bool :=
  match s with
  | EmptyString => true
  | String c r => (nat_of_ascii c <? 128)%nat && isAscii r
  end.

Section NormalizerNotions.
Context `{Host}.

(** [a.toLowerCase() === b.toLowerCase()]: the same text but for the case
    of its letters, as the runtime sees case. *)
Definition sameButCase (a b : string) : Prop :=
  toLowerCase a = toLowerCase b.

(** The words the normalizer knows: the alias and the six names. *)
Definition providerWords : list string :=
  "imsg" :: (providerName <$> CHAT_PROVIDERS).

(** On ASCII text, [trim] strips tab, line feed, vertical tab, form feed,
    carriage return and space from both ends, and [toLowerCase] lowers
    [A]..[Z] and nothing else: what JavaScript's two functions do there. *)
Definition asciiRuntime : Prop :=
  ∀ s, isAscii s = true →
    trim s = trim_ascii s ∧ toLowerCase s = toLowerCase_ascii s.

End NormalizerNotions.

(** ** Documents and requests of the examples *)

(** A request that supplies a display name only. *)
Definition nameOnly (p : ChatProvider) (a n : string) : AccountParams := {|
  provider := p; accountId := a; name := Some n;
  token := None; tokenFile := None; botToken := None; appToken := None;
  signalNumber := None; cliPath := None; dbPath := None; service := None;
  region := None; authDir := None; httpUrl := None; httpHost := None;
  httpPort := None; useEnv := None
|}.

(** A request that supplies a token only. *)
Definition tokenOnly (p : ChatProvider) (a tok : string) : AccountParams := {|
  provider := p; accountId := a; name := None;
  token := Some tok; tokenFile := None; botToken := None; appToken := None;
  signalNumber := None; cliPath := None; dbPath := None; service := None;
  region := None; authDir := None; httpUrl := None; httpHost := None;
  httpPort := None; useEnv := None
|}.

(** [{ telegram: { botToken: "abc", webhookUrl: "https://bot.example/hook" } }] *)
Definition docTelegramFlat : value :=
  object ["telegram" ::: object [
    "botToken" ::: VStr "abc";
    "webhookUrl" ::: VStr "https://bot.example/hook"]].

(** [{ telegram: { botToken: "abc", accounts: { work: { botToken: "w" } } } }] *)
Definition docTelegramNamed : value :=
  object ["telegram" ::: object [
    "botToken" ::: VStr "abc";
    "accounts" ::: object ["work" ::: object ["botToken" ::: VStr "w"]]]].

(** [{ discord: { enabled: false } }] *)
Definition docDiscordDisabled : value :=
  object ["discord" ::: object ["enabled" ::: VBool false]].

(** A snapshot of a config file that exists, is valid and is empty. *)
Definition emptySnapshot : ConfigFileSnapshot := {|
  snap_exists := true; snap_valid := true;
  snap_config := object []; snap_issues := []
|}.

(** [--provider slack --account work --use-env] *)
Definition slackWorkEnv : ProvidersAddOptions.t := {|
  ProvidersAddOptions.provider := Some "slack";
  ProvidersAddOptions.account := Some "work";
  ProvidersAddOptions.name := None;
  ProvidersAddOptions.token := None;
  ProvidersAddOptions.tokenFile := None;
  ProvidersAddOptions.botToken := None;
  ProvidersAddOptions.appToken := None;
  ProvidersAddOptions.signalNumber := None;
  ProvidersAddOptions.cliPath := None;
  ProvidersAddOptions.dbPath := None;
  ProvidersAddOptions.service := None;
  ProvidersAddOptions.region := None;
  ProvidersAddOptions.authDir := None;
  ProvidersAddOptions.httpUrl := None;
  ProvidersAddOptions.httpHost := None;
  ProvidersAddOptions.httpPort := None;
  ProvidersAddOptions.useEnv := Some true
|}.

(** ** Notions used by the further properties *)

(** Text made of white space only. *)
Fixpoint allWhiteSpace (s : string) : bool :=
  match s with
  | EmptyString => true
  | String c r => isWhiteSpace c && allWhiteSpace r
  end.

(** Text that begins with a character other than white space. *)
Definition startsSolid (s : string) : bool :=
  match s with
  | EmptyString => false
  | String c _ => negb (isWhiteSpace c)
  end.

(** [null] or [undefined]. *)
Definition isNullish (v : value) : bool :=
  match v with VUndef | VNull => true | _ => false end.

(** The account records that a status payload holds under [field]. *)
Definition recordsOf (payload : value) (field : string) : list value :=
  match get payload field with VArr accounts => accounts | _ => [] end.

(** All the account records of a status payload, section after section. *)
Definition allRecords (payload : value) : list value :=
  concat (map (λ section, recordsOf payload section.2) statusSections).

(** The payload, or one of its account records, is [null] or
    [undefined]. *)
Definition hasNullRecord (payload : value) : bool :=
  isNullish payload || existsb isNullish (allRecords payload).

(** The text ends with a slash. *)
Definition endsWithSlash (s : string) : bool :=
  match String.rev s with
  | String c _ => Ascii.eqb c "/"
  | EmptyString => false
  end.

(** A text of [n] slashes. *)
Fixpoint slashes (n : nat) : string :=
  match n with
  | O => EmptyString
  | S n => String "/" (slashes n)
  end.

(** The cache of the Feishu client holds a client together with the
    credentials it was built from, and no client from the future. *)
Definition Coherent (cache : ClientCache) : Prop :=
  match cachedClient cache, cachedConfig cache with
  | Some client, Some config =>
      client_appId client = appId config
      ∧ client_appSecret client = appSecret config
      ∧ client_domain client = resolveDomain (domain config)
      ∧ serial client < built cache
  | _, _ => True
  end.

Section MoreNotions.
Context `{Host}.

(** The step that [setAccountEnabled] takes on a provider section. *)
Definition enableStep (accountKey : string) (key : ChatProvider) (enabled : bool)
    (sec : value) : value → value :=
  match key with
  | whatsapp => entryStep ∅ accountKey {[ "enabled" := VBool enabled ]}
  | _ =>
      if String.eqb accountKey DEFAULT_ACCOUNT_ID
         && negb (truthy (get sec "accounts"))
      then flatStep {[ "enabled" := VBool enabled ]}
      else entryStep ∅ accountKey {[ "enabled" := VBool enabled ]}
  end.

(** The request that the flag-driven add command hands to
    [applyProviderAccountConfig]. *)
Definition requestOf (opts : ProvidersAddOptions.t) (p : ChatProvider) : AccountParams := {|
  provider := p;
  accountId := normalizeAccountId (ProvidersAddOptions.account opts);
  name := ProvidersAddOptions.name opts;
  token := ProvidersAddOptions.token opts;
  tokenFile := ProvidersAddOptions.tokenFile opts;
  botToken := ProvidersAddOptions.botToken opts;
  appToken := ProvidersAddOptions.appToken opts;
  signalNumber := ProvidersAddOptions.signalNumber opts;
  cliPath := ProvidersAddOptions.cliPath opts;
  dbPath := ProvidersAddOptions.dbPath opts;
  service := ProvidersAddOptions.service opts;
  region := ProvidersAddOptions.region opts;
  authDir := ProvidersAddOptions.authDir opts;
  httpUrl := ProvidersAddOptions.httpUrl opts;
  httpHost := ProvidersAddOptions.httpHost opts;
  httpPort := ProvidersAddOptions.httpPort opts;
  useEnv := Some (match ProvidersAddOptions.useEnv opts with
                  | Some true => true
                  | _ => false
                  end)
|}.

(** The account key of the remove command:
    [accountId || DEFAULT_ACCOUNT_ID]. *)
Definition accountKeyOf (opts : ProvidersRemoveOptions.t) : string :=
  let accountId := normalizeAccountId (ProvidersRemoveOptions.account opts) in
  if String.eqb accountId "" then DEFAULT_ACCOUNT_ID else accountId.

End MoreNotions.

(** ** More documents and requests of the examples *)

(** A Telegram request with a token file and a token. *)
Definition tokenAndFile (a file tok : string) : AccountParams := {|
  provider := telegram; accountId := a; name := None;
  token := Some tok; tokenFile := Some file; botToken := None; appToken := None;
  signalNumber := None; cliPath := None; dbPath := None; service := None;
  region := None; authDir := None; httpUrl := None; httpHost := None;
  httpPort := None; useEnv := None
|}.

(** A request with a token that leaves the credential to the
    environment. *)
Definition tokenFromEnv (p : ChatProvider) (a tok : string) : AccountParams := {|
  provider := p; accountId := a; name := None;
  token := Some tok; tokenFile := None; botToken := None; appToken := None;
  signalNumber := None; cliPath := None; dbPath := None; service := None;
  region := None; authDir := None; httpUrl := None; httpHost := None;
  httpPort := None; useEnv := Some true
|}.

(** A Signal request with a number and an HTTP port. *)
Definition signalRequest (a number port : string) : AccountParams := {|
  provider := signal; accountId := a; name := None;
  token := None; tokenFile := None; botToken := None; appToken := None;
  signalNumber := Some number; cliPath := None; dbPath := None; service := None;
  region := None; authDir := None; httpUrl := None; httpHost := None;
  httpPort := Some port; useEnv := None
|}.

(** [{ discord: { token: "old" } }] *)
Definition docDiscordToken : value :=
  object ["discord" ::: object ["token" ::: VStr "old"]].

(** [{ telegram: { botToken: "abc", accounts: { default: { enabled: true } } } }] *)
Definition docTelegramDefaultEntry : value :=
  object ["telegram" ::: object [
    "botToken" ::: VStr "abc";
    "accounts" ::: object ["default" ::: object ["enabled" ::: VBool true]]]].

(** A snapshot of a config file that exists and does not validate. *)
Definition invalidSnapshot : ConfigFileSnapshot := {|
  snap_exists := true; snap_valid := false;
  snap_config := object [];
  snap_issues := [{| issue_path := "telegram.botToken";
                     issue_message := "Expected string" |}]
|}.

(** A valid snapshot that holds [docTelegramNamed]. *)
Definition telegramSnapshot : ConfigFileSnapshot := {|
  snap_exists := true; snap_valid := true;
  snap_config := docTelegramNamed; snap_issues := []
|}.

(** [--provider telegram --account work], without [--delete]. *)
Definition disableTelegramWork : ProvidersRemoveOptions.t := {|
  ProvidersRemoveOptions.provider := Some "telegram";
  ProvidersRemoveOptions.account := Some "work";
  ProvidersRemoveOptions.delete_ := None
|}.

(** A reading of the Feishu credentials for the examples: the three fields
    of the config, the domain being [feishu] unless given. *)
Definition exampleCredentials (cfg : value) : option FeishuCredentials :=
  match get cfg "appId", get cfg "appSecret" with
  | VStr id, VStr secret =>
      Some {| appId := id; appSecret := secret;
              domain := match get cfg "domain" with VStr d => d | _ => "feishu" end |}
  | _, _ => None
  end.

(** [{ appId: "cli_a", appSecret: "s3", domain: "https://open.example.com//" }] *)
Definition feishuConfig : value :=
  object ["appId" ::: VStr "cli_a"; "appSecret" ::: VStr "s3";
          "domain" ::: VStr "https://open.example.com//"].

Definition emptyCache : ClientCache :=
  {| cachedClient := None; cachedConfig := None; built := 0 |}.

(** * Properties *)

(** ** The algebra of patches *)

Lemma foldl_define_union (ms : list member) (acc : gmap string value) :
  foldl define acc ms = fields ms ∪ acc.
Proof.
  unfold fields. revert acc.
  induction ms as [|m ms IH] using rev_ind; intros acc.
  - simpl. by rewrite (left_id_L ∅ (∪)).
  - rewrite !foldl_app. simpl. rewrite IH. destruct m as [v|k v]; simpl.
    + by rewrite (assoc_L (∪)).
    + by rewrite insert_union_l.
Qed.

Lemma object_spread (v : value) (ms : list member) :
  object (Spread v :: ms) = patch (fields ms) v.
Proof.
  unfold object, patch. simpl. rewrite foldl_define_union.
  by rewrite (right_id_L ∅ (∪)).
Qed.

Lemma fields_cons_field (k : string) (v : value) (ms : list member) :
  fields ((k ::: v) :: ms) = fields ms ∪ {[k := v]}.
Proof. unfold fields. simpl. rewrite foldl_define_union. by rewrite insert_empty. Qed.

Lemma fields_cons_spread (v : value) (ms : list member) :
  fields (Spread v :: ms) = fields ms ∪ own v.
Proof.
  unfold fields. simpl. rewrite foldl_define_union. by rewrite (right_id_L ∅ (∪)).
Qed.

Lemma fields_snoc_field (ms : list member) (k : string) (v : value) :
  fields (ms ++ [k ::: v]) = <[k := v]> (fields ms).
Proof. unfold fields. by rewrite foldl_app. Qed.

Lemma get_VObj (m : gmap string value) (k : string) :
  get (VObj m) k = default VUndef (m !! k).
Proof. reflexivity. Qed.

Lemma get_upd_eq k F v : get (upd k F v) k = F (get v k).
Proof. unfold upd. by rewrite get_VObj, lookup_insert_eq. Qed.

Lemma get_upd_ne k k' F v : k ≠ k' → get (upd k F v) k' = get v k'.
Proof. intros. unfold upd. by rewrite get_VObj, lookup_insert_ne. Qed.

Lemma get_patch_None R v k : R !! k = None → get (patch R v) k = get v k.
Proof. intros HR. unfold patch, get. simpl. by rewrite lookup_union_r. Qed.

Lemma get_patch_Some R v k x : R !! k = Some x → get (patch R v) k = x.
Proof.
  intros HR. unfold patch, get. simpl.
  by rewrite (lookup_union_Some_l _ _ _ _ HR).
Qed.

Lemma upd_upd k F G v : upd k F (upd k G v) = upd k (λ x, F (G x)) v.
Proof. unfold upd at 1 3. rewrite get_upd_eq. simpl. by rewrite insert_insert_eq. Qed.

Lemma upd_ext k F G v : F (get v k) = G (get v k) → upd k F v = upd k G v.
Proof. intros E. unfold upd. by rewrite E. Qed.

Lemma upd_comm k k' F G v :
  k ≠ k' → upd k F (upd k' G v) = upd k' G (upd k F v).
Proof.
  intros Hne. unfold upd at 1 3. rewrite !get_upd_ne by done.
  unfold upd. simpl. by rewrite insert_insert_ne.
Qed.

Lemma patch_patch R R' v : patch R (patch R' v) = patch (R ∪ R') v.
Proof. unfold patch. simpl. by rewrite (assoc_L (∪)). Qed.

Lemma upd_patch k F R v :
  R !! k = None → upd k F (patch R v) = patch R (upd k F v).
Proof.
  intros HR. unfold upd at 1. rewrite get_patch_None by done.
  unfold patch, upd. simpl. by rewrite insert_union_r.
Qed.

Lemma Idempotent_patch R : Idempotent (patch R).
Proof. intros v. rewrite patch_patch. by rewrite (idemp_L (∪)). Qed.

Lemma Idempotent_upd k F : Idempotent F → Idempotent (upd k F).
Proof. intros HF v. rewrite upd_upd. apply upd_ext, HF. Qed.

Lemma Idempotent_commute F G :
  Idempotent F → Idempotent G → (∀ v, F (G v) = G (F v)) →
  Idempotent (λ v, F (G v)).
Proof. intros HF HG HC v. simpl. by rewrite <- (HC (G v)), HF, HG. Qed.

Lemma Idempotent_ext F G :
  (∀ v, F v = G v) → Idempotent G → Idempotent F.
Proof. intros E HG v. by rewrite !E, HG. Qed.

Lemma upd_patch_empty k F v : upd k F (patch ∅ v) = upd k F v.
Proof. unfold upd, patch, get. simpl. by rewrite (left_id_L ∅ (∪)). Qed.

Lemma Idempotent_over_accounts P W :
  P !! "accounts" = None → Idempotent W →
  Idempotent (λ sec, upd "accounts" W (patch P sec)).
Proof.
  intros HP HW.
  apply (Idempotent_commute (upd "accounts" W) (patch P)).
  - by apply Idempotent_upd.
  - apply Idempotent_patch.
  - intros v. by apply upd_patch.
Qed.

Lemma Idempotent_entries a a' E E' :
  Idempotent (λ accs, upd a (patch E) (upd a' (patch E') accs)).
Proof.
  destruct (decide (a = a')) as [->|Hne].
  - apply (Idempotent_ext _ (upd a' (patch (E ∪ E')))).
    + intros v. rewrite upd_upd. apply upd_ext. by rewrite patch_patch.
    + apply Idempotent_upd, Idempotent_patch.
  - apply (Idempotent_commute (upd a (patch E)) (upd a' (patch E'))).
    + apply Idempotent_upd, Idempotent_patch.
    + apply Idempotent_upd, Idempotent_patch.
    + intros v. by apply upd_comm.
Qed.

Lemma Step_idempotent X : Step X → Idempotent X.
Proof.
  intros [R HR|P a E HP].
  - apply Idempotent_patch.
  - apply Idempotent_over_accounts; [done|].
    apply Idempotent_upd, Idempotent_patch.
Qed.

Lemma Step_compose_idempotent X Y :
  Step X → Step Y → Idempotent (λ sec, X (Y sec)).
Proof.
  intros [R HR|P a E HP] [R' HR'|P' a' E' HP']; unfold flatStep, entryStep.
  - apply (Idempotent_ext _ (patch (R ∪ R'))); [|apply Idempotent_patch].
    intros v. by rewrite patch_patch.
  - apply (Idempotent_ext _
      (λ sec, upd "accounts" (upd a' (patch E')) (patch (R ∪ P') sec))).
    + intros v. by rewrite <- upd_patch, patch_patch.
    + apply Idempotent_over_accounts.
      * by rewrite lookup_union_r.
      * apply Idempotent_upd, Idempotent_patch.
  - apply (Idempotent_ext _
      (λ sec, upd "accounts" (upd a (patch E)) (patch (P ∪ R') sec))).
    + intros v. by rewrite patch_patch.
    + apply Idempotent_over_accounts.
      * by rewrite lookup_union_r.
      * apply Idempotent_upd, Idempotent_patch.
  - apply (Idempotent_ext _
      (λ sec, upd "accounts"
                (λ accs, upd a (patch E) (upd a' (patch E') accs))
                (patch (P ∪ P') sec))).
    + intros v. rewrite <- upd_patch by done.
      by rewrite upd_upd, patch_patch.
    + apply Idempotent_over_accounts.
      * by rewrite lookup_union_r.
      * apply Idempotent_entries.
Qed.

(** ** Lookups in the fields of a member list *)

Lemma lookup_define_field_eq acc k v : define acc (k ::: v) !! k = Some v.
Proof. apply lookup_insert_eq. Qed.

Lemma lookup_define_field_ne acc k k' v :
  k ≠ k' → define acc (k' ::: v) !! k = acc !! k.
Proof. intros. simpl. by rewrite lookup_insert_ne. Qed.

Lemma lookup_define_spread_None acc v k :
  own v !! k = None → define acc (Spread v) !! k = acc !! k.
Proof. intros Hv. simpl. by rewrite lookup_union_r. Qed.

Lemma lookup_define_optField acc k k' o :
  (k = k' → present o = false) →
  define acc (optField k' o) !! k = acc !! k.
Proof.
  intros Hk. unfold optField. apply lookup_define_spread_None.
  destruct o as [s|]; simpl; [|done].
  destruct (String.eqb s "") eqn:Es; simpl; [done|].
  unfold object. simpl. rewrite lookup_insert_ne; [done|].
  intros ->. specialize (Hk eq_refl). simpl in Hk. by rewrite Es in Hk.
Qed.

Lemma own_nullish v : own (nullish v (object [])) = own v.
Proof. by destruct v. Qed.

Lemma get_nullish v k : get (nullish v (object [])) k = get v k.
Proof. unfold get. by rewrite own_nullish. Qed.

Lemma object_spread_own v w ms :
  own v = own w → object (Spread v :: ms) = object (Spread w :: ms).
Proof. intros E. rewrite !object_spread. unfold patch. by rewrite E. Qed.

Lemma object_field v k x :
  object [Spread v; k ::: x] = VObj (<[k := x]> (own v)).
Proof. unfold object. simpl. by rewrite (right_id_L ∅ (∪)). Qed.

(** The literal [{...v, [k]: F(v?.[k])}]. *)
Lemma literal_upd v k F x :
  x = F (get v k) → object [Spread v; k ::: x] = upd k F v.
Proof. intros ->. apply object_field. Qed.

(** The literal that rewrites the entry [a] of a section's accounts map. *)
Lemma literal_entry sec a ms :
  object [Spread sec;
    "accounts" ::: object [Spread (get sec "accounts");
      a ::: object (Spread (get (get sec "accounts") a) :: ms)]]
  = entryStep ∅ a (fields ms) sec.
Proof.
  unfold entryStep. rewrite upd_patch_empty.
  apply literal_upd, literal_upd, object_spread.
Qed.

Lemma literal_entry_enabled sec a ms :
  object [Spread sec;
    "enabled" ::: VBool true;
    "accounts" ::: object [Spread (get sec "accounts");
      a ::: object (Spread (get (get sec "accounts") a) :: ms)]]
  = entryStep {[ "enabled" := VBool true ]} a (fields ms) sec.
Proof.
  unfold entryStep, upd at 1. rewrite get_patch_None by done.
  unfold object at 1, patch at 2. simpl.
  rewrite (right_id_L ∅ (∪)), <- insert_union_singleton_l.
  do 2 f_equal. apply literal_upd, object_spread.
Qed.

(** ** The functions as steps on a provider section *)

Section Forms.
Context `{Host}.

Lemma Step_nameStep p a t : Step (nameStep p a t).
Proof.
  unfold nameStep. destruct p; try destruct (String.eqb a DEFAULT_ACCOUNT_ID);
    by constructor.
Qed.

Lemma Step_configStep p a E :
  E !! "accounts" = None → Step (configStep p a E).
Proof.
  intros HE. unfold configStep.
  destruct p; try destruct (String.eqb a DEFAULT_ACCOUNT_ID); by constructor.
Qed.

Lemma fields_name t : fields ["name" ::: VStr t] = {[ "name" := VStr t ]}.
Proof. reflexivity. Qed.

Lemma applyAccountName_form cfg p a nm :
  applyAccountName cfg p a nm =
    match trim <$> nm with
    | Some t =>
        if negb (String.eqb t "") then
          upd (providerName p) (nameStep p (normalizeAccountId (Some a)) t) cfg
        else cfg
    | None => cfg
    end.
Proof.
  unfold applyAccountName, nameStep.
  destruct nm as [n|]; simpl; [|done].
  destruct (String.eqb (trim n) ""); simpl; [done|].
  destruct p; try (apply literal_upd; rewrite <- fields_name; apply literal_entry);
    (destruct (String.eqb _ DEFAULT_ACCOUNT_ID);
     [ apply literal_upd; unfold flatStep; rewrite <- fields_name, <- object_spread;
       apply object_spread_own; by destruct (get cfg _)
     | apply literal_upd; rewrite <- fields_name, <- literal_entry;
       by rewrite !object_field, !own_nullish, get_nullish ]).
Qed.

Lemma present_trimmedName params :
  present (trimmedName params) = present (trim <$> name params).
Proof.
  unfold trimmedName. destruct (name params) as [n|]; simpl; [|done].
  destruct (String.eqb (trim n) "") eqn:E; simpl; [done|]. by rewrite E.
Qed.

(** From [requested params k = false]: the facts about each field. *)
Ltac split_requested Hreq :=
  unfold requested in Hreq; cbn [provider name token tokenFile botToken appToken
    signalNumber cliPath dbPath service region authDir httpUrl httpHost httpPort] in Hreq;
  repeat match goal with
         | Hx : (_ || _) = false |- _ => apply orb_false_elim in Hx as [? ?]
         end.

Ltac key_differs :=
  let E := fresh in
  intros E; try discriminate E; subst; simpl in *; congruence.

Ltac absent_here :=
  let E := fresh in
  intros E; try discriminate E; subst; simpl in *;
  try rewrite present_trimmedName; first [done | congruence].

Ltac step_lookup :=
  first
    [ rewrite lookup_define_field_ne by (first [done | key_differs])
    | rewrite lookup_define_optField by absent_here
    | rewrite lookup_define_spread_None
        by (repeat case_match; unfold object; cbn [foldl own];
            repeat (rewrite lookup_define_optField by absent_here);
            repeat (rewrite lookup_define_field_ne by key_differs);
            apply lookup_empty) ].

Ltac lookup_enabled :=
  unfold fields, nameField; cbn [foldl];
  repeat step_lookup; apply lookup_define_field_eq.

Ltac lookup_unrequested :=
  let k := fresh "k" in let Hk := fresh "Hk" in let Hreq := fresh "Hreq" in
  intros k Hk Hreq; split_requested Hreq;
  unfold fields, nameField; cbn [foldl];
  repeat step_lookup; apply lookup_empty.

Lemma config_form params :
  let p := provider params in
  let a := normalizeAccountId (Some (accountId params)) in
  ∃ E : gmap string value,
    E !! "enabled" = Some (VBool true)
    ∧ (∀ k, k ≠ "enabled" → requested params k = false → E !! k = None)
    ∧ ∀ cfg, applyProviderAccountConfig cfg params
             = upd (providerName p) (configStep p a E)
                   (applyAccountName cfg p a (trimmedName params)).
Proof.
  intros p a. subst p a. unfold applyProviderAccountConfig, configStep.
  fold (trimmedName params).
  destruct params as [p a nm tk tf bt at_ sn cli db svc rg ad hu hh hp ue].
  cbn [provider accountId token tokenFile botToken appToken signalNumber cliPath
       dbPath service region authDir httpUrl httpHost httpPort useEnv].
  set (name' := trimmedName _).
  destruct p; try destruct (String.eqb _ DEFAULT_ACCOUNT_ID);
    (eexists (fields _); split; [|split];
     [ | | intros cfg; apply literal_upd;
           first [ apply literal_entry | apply literal_entry_enabled
                 | apply object_spread ] ]).
  all: first [lookup_enabled | subst name'; lookup_unrequested].
Qed.

Lemma requested_accounts params : requested params "accounts" = false.
Proof. unfold requested. by destruct (provider params). Qed.

Lemma trim_trimmedName params :
  trim <$> trimmedName params = None
  ∨ ∃ t, trimmedName params = Some t ∧ String.eqb t "" = false.
Proof.
  unfold trimmedName. destruct (name params) as [n|]; simpl; [|by left].
  destruct (String.eqb (trim n) "") eqn:E; simpl; [by left|].
  right. by exists (trim n).
Qed.

(** The add patch rewrites the section of its provider by one step, after
    at most one step for the display name. *)
Lemma applyProviderAccountConfig_steps params :
  ∃ X : value → value,
    Idempotent X ∧
    ∀ cfg, applyProviderAccountConfig cfg params
           = upd (providerName (provider params)) X cfg.
Proof.
  destruct (config_form params) as (E & _ & Hframe & Hform).
  assert (Step (configStep (provider params)
                 (normalizeAccountId (Some (accountId params))) E)) as HX.
  { apply Step_configStep, Hframe; [done|apply requested_accounts]. }
  destruct (trimmedName params) as [t|] eqn:Hname.
  - destruct (String.eqb (trim t) "") eqn:Et.
    + eexists. split; [by apply Step_idempotent|].
      intros cfg. rewrite Hform, applyAccountName_form. simpl. by rewrite Et.
    + eexists. split; [apply Step_compose_idempotent; [exact HX|apply Step_nameStep]|].
      intros cfg. rewrite Hform, applyAccountName_form. simpl. rewrite Et. simpl.
      by rewrite upd_upd.
  - eexists. split; [by apply Step_idempotent|].
    intros cfg. by rewrite Hform, applyAccountName_form.
Qed.

(** C4 - Idempotence of add: for every document, provider, account id and
    combination of optional fields, applying [applyProviderAccountConfig]
    twice with the same parameters yields the same document as applying it
    once. *)
Theorem add_account_idempotent cfg params :
  applyProviderAccountConfig (applyProviderAccountConfig cfg params) params
  = applyProviderAccountConfig cfg params.
Proof.
  destruct (applyProviderAccountConfig_steps params) as (X & HX & Hform).
  rewrite !Hform, upd_upd. apply upd_ext, HX.
Qed.

(** ** What a step leaves in place *)

Lemma get_entryStep_other P a E sec k :
  k ≠ "accounts" → get (entryStep P a E sec) k = get (patch P sec) k.
Proof. intros. unfold entryStep. by rewrite get_upd_ne. Qed.

Lemma accounts_entryStep P a E sec :
  P !! "accounts" = None →
  get (entryStep P a E sec) "accounts" = upd a (patch E) (get sec "accounts").
Proof. intros. unfold entryStep. by rewrite get_upd_eq, get_patch_None. Qed.

Lemma entry_entryStep_eq P a E sec :
  P !! "accounts" = None →
  get (get (entryStep P a E sec) "accounts") a
  = patch E (get (get sec "accounts") a).
Proof. intros. by rewrite accounts_entryStep, get_upd_eq. Qed.

Lemma entry_entryStep_ne P a b E sec :
  P !! "accounts" = None → b ≠ a →
  get (get (entryStep P b E sec) "accounts") a = get (get sec "accounts") a.
Proof. intros. by rewrite accounts_entryStep, get_upd_ne. Qed.

Lemma configStep_record p a E sec k :
  E !! k = None →
  get (recordOf p a (configStep p a E sec)) k = get (recordOf p a sec) k.
Proof.
  intros HE. unfold recordOf, configStep.
  destruct p; try destruct (String.eqb a DEFAULT_ACCOUNT_ID);
    first [ by apply get_patch_None
          | by rewrite entry_entryStep_eq, get_patch_None ].
Qed.

Lemma nameStep_record p a a' t sec k :
  k ≠ "name" → (k = "accounts" → a' = a) →
  get (recordOf p a (nameStep p a' t sec)) k = get (recordOf p a sec) k.
Proof.
  intros Hname Hacc.
  assert (({[ "name" := VStr t ]} : gmap string value) !! k = None) as HN.
  { by rewrite lookup_singleton_ne. }
  assert (∀ s, get (get (get (entryStep ∅ a' {[ "name" := VStr t ]} s) "accounts") a) k
               = get (get (get s "accounts") a) k) as Hentry.
  { intros s. destruct (decide (a' = a)) as [->|Hne].
    - by rewrite entry_entryStep_eq, get_patch_None.
    - by rewrite entry_entryStep_ne. }
  unfold recordOf, nameStep.
  destruct p; try done;
    destruct (String.eqb a DEFAULT_ACCOUNT_ID) eqn:Ea,
             (String.eqb a' DEFAULT_ACCOUNT_ID) eqn:Ea';
    try done; unfold flatStep;
    first [ by apply get_patch_None
          | by rewrite (get_patch_None _ _ "accounts")
          | destruct (decide (k = "accounts")) as [Hk|Hk];
            [ rewrite (Hacc Hk) in Ea'; congruence
            | by rewrite get_entryStep_other, get_patch_None ] ].
Qed.

(** C5 - Merge, not replace: a field of the account's record that the add
    request does not supply keeps its value; in particular a request with
    only a display name leaves every credential field of the account as it
    was.  The record is the entry of the accounts map, or the section itself
    for the default account of a provider other than whatsapp; [enabled] is
    what every add writes.  For the field [accounts] the statement takes
    [normalizeAccountId] to leave the normalized id as it is, since the name
    is written under the id normalized a second time. *)
Theorem add_account_merges cfg params k :
  k ≠ "enabled" →
  requested params k = false →
  let a := normalizeAccountId (Some (accountId params)) in
  (k = "accounts" → normalizeAccountId (Some a) = a) →
  get (accountRecord (applyProviderAccountConfig cfg params) (provider params) a) k
  = get (accountRecord cfg (provider params) a) k.
Proof.
  intros Hen Hreq a Hacc.
  destruct (config_form params) as (E & _ & Hframe & Hform).
  unfold accountRecord. rewrite Hform, get_upd_eq.
  rewrite configStep_record by (by apply Hframe).
  rewrite applyAccountName_form.
  destruct (trimmedName params) as [t|] eqn:Hname; simpl; [|done].
  destruct (String.eqb (trim t) ""); simpl; [done|].
  rewrite get_upd_eq. apply nameStep_record; [|done].
  intros ->. unfold requested in Hreq. apply orb_false_elim in Hreq as [Hreq _].
  rewrite <- present_trimmedName, Hname in Hreq. simpl in Hreq.
  destruct (trim_trimmedName params) as [Hn|(t' & Ht' & Hne)].
  - by rewrite Hname in Hn.
  - rewrite Hname in Ht'. injection Ht' as ->. by rewrite Hne in Hreq.
Qed.

(** C10 - Adding a named account to a provider other than whatsapp sets
    [enabled = true] on the section as well as on the account's entry, so it
    re-enables a section that was disabled. *)
Theorem add_named_account_enables_section cfg params :
  provider params ≠ whatsapp →
  normalizeAccountId (Some (accountId params)) ≠ DEFAULT_ACCOUNT_ID →
  let a := normalizeAccountId (Some (accountId params)) in
  let sec := get (applyProviderAccountConfig cfg params)
                 (providerName (provider params)) in
  get sec "enabled" = VBool true
  ∧ get (get (get sec "accounts") a) "enabled" = VBool true.
Proof.
  intros Hp Ha a sec. subst sec.
  destruct (config_form params) as (E & Hen & _ & Hform).
  rewrite Hform, get_upd_eq. unfold configStep. fold a.
  apply String.eqb_neq in Ha. fold a in Ha. rewrite Ha.
  destruct (provider params); try done;
    (split;
     [ rewrite get_entryStep_other by done; by apply get_patch_Some
     | rewrite entry_entryStep_eq by done; by apply get_patch_Some ]).
Qed.

(** ** Enabling, disabling and deleting as steps *)

Lemma setAccountEnabled_form next accountKey key enabled :
  setAccountEnabled next accountKey key enabled =
    upd (providerName key)
      (match key with
       | whatsapp => entryStep ∅ accountKey {[ "enabled" := VBool enabled ]}
       | _ =>
           if String.eqb accountKey DEFAULT_ACCOUNT_ID
              && negb (truthy (get (get next (providerName key)) "accounts"))
           then flatStep {[ "enabled" := VBool enabled ]}
           else entryStep ∅ accountKey {[ "enabled" := VBool enabled ]}
       end) next.
Proof.
  assert (fields ["enabled" ::: VBool enabled]
          = ({[ "enabled" := VBool enabled ]} : gmap string value)) as Hf by done.
  unfold setAccountEnabled.
  destruct key;
    try (apply literal_upd; rewrite <- Hf; apply literal_entry);
    (destruct (_ && _);
     [ apply literal_upd; unfold flatStep; rewrite <- Hf; apply object_spread
     | apply literal_upd; rewrite <- Hf, <- literal_entry;
       by rewrite !object_field, !own_nullish, get_nullish ]).
Qed.

Lemma Object_keys_length v : length (Object_keys v) = size (own v).
Proof. unfold Object_keys. by rewrite length_fmap, length_map_to_list. Qed.

Lemma has_entries_hasAccounts sec :
  truthy (get sec "accounts")
    && (0 <? length (Object_keys (get sec "accounts")))%nat
  = hasAccounts sec.
Proof.
  unfold hasAccounts. rewrite Object_keys_length.
  destruct (get sec "accounts") as [| | | | | | |m]; simpl;
    rewrite ?map_size_empty; try done; try by rewrite andb_false_r.
  by destruct (size m).
Qed.

Lemma removeEntry_cases k accounts :
  (removeEntry k accounts = VUndef ∧ delete k (own accounts) = ∅)
  ∨ (removeEntry k accounts = VObj (delete k (own accounts))
     ∧ size (delete k (own accounts)) ≠ 0).
Proof.
  unfold removeEntry, accountsOrUndefined, delete_prop.
  rewrite Object_keys_length. unfold object. simpl.
  rewrite (right_id_L ∅ (∪)).
  destruct (size (delete k (own accounts))) eqn:Hsz; simpl.
  - left. split; [done|]. by apply map_size_empty_iff.
  - by right.
Qed.

Lemma get_removeEntry_eq k accounts : get (removeEntry k accounts) k = VUndef.
Proof.
  destruct (removeEntry_cases k accounts) as [[-> _]|[-> _]]; [done|].
  by rewrite get_VObj, lookup_delete_eq.
Qed.

Lemma get_removeEntry_ne k accounts id :
  id ≠ k → get (removeEntry k accounts) id = get accounts id.
Proof.
  intros Hne. unfold get at 2.
  rewrite <- (lookup_delete_ne (own accounts) k id) by done.
  destruct (removeEntry_cases k accounts) as [[-> ->]|[-> _]]; done.
Qed.

Lemma removeEntry_absent_or_nonempty k accounts :
  match removeEntry k accounts with
  | VUndef => true
  | VObj m => negb (size m =? 0)%nat
  | _ => false
  end = true.
Proof.
  destruct (removeEntry_cases k accounts) as [[-> _]|[-> Hsz]]; [done|].
  by destruct (size _).
Qed.

Lemma own_clearedSingletons key k :
  own (clearedSingletons key) !! k
  = if bool_decide (k ∈ singletonFields key) then Some VUndef else None.
Proof.
  destruct key; unfold clearedSingletons, singletonFields, object; cbn [foldl own];
    repeat (case_bool_decide as Hin; [|]); try done.
  all: try (rewrite ?lookup_define_field_ne
              by (intros ->; apply Hin; set_solver); apply lookup_empty).
  all: repeat (apply elem_of_cons in Hin as [->|Hin]);
       try (by apply elem_of_nil in Hin);
       by repeat first [ apply lookup_define_field_eq
                       | rewrite lookup_define_field_ne by done ].
Qed.

Lemma deleteAccount_form next accountKey key :
  deleteAccount next accountKey key =
    if bool_decide (key = whatsapp) || negb (String.eqb accountKey DEFAULT_ACCOUNT_ID)
    then upd (providerName key) (upd "accounts" (removeEntry accountKey)) next
    else if hasAccounts (get next (providerName key))
    then upd (providerName key) (clearStep key accountKey) next
    else VObj (delete (providerName key) (own next)).
Proof.
  unfold deleteAccount.
  destruct key; simpl; try (by apply literal_upd, literal_upd);
    (destruct (String.eqb accountKey DEFAULT_ACCOUNT_ID); simpl;
     [ rewrite has_entries_hasAccounts;
       destruct (hasAccounts _);
       [ apply literal_upd; unfold clearStep;
         rewrite <- (literal_upd _ "accounts" (removeEntry accountKey) _ eq_refl);
         by unfold removeEntry, object, patch
       | unfold delete_prop, object; simpl; by rewrite (right_id_L ∅ (∪)) ]
     | by apply literal_upd, literal_upd ]).
Qed.

(** ** Deleting an account *)

Lemma clearedSingletons_accounts key :
  own (clearedSingletons key) !! "accounts" = None.
Proof. by destruct key. Qed.

(** C3 - No empty maps persisted: after any delete, for whatsapp and the
    other five providers alike, the accounts property of the resulting
    provider section reads as [undefined] or is a map with at least one
    entry; when the delete removes the whole section there is no accounts
    property at all. *)
Theorem delete_leaves_no_empty_accounts next accountKey key :
  accountsAbsentOrNonEmpty
    (get (deleteAccount next accountKey key) (providerName key)) = true.
Proof.
  rewrite deleteAccount_form. unfold accountsAbsentOrNonEmpty.
  destruct (_ || _).
  - rewrite !get_upd_eq. apply removeEntry_absent_or_nonempty.
  - destruct (hasAccounts _).
    + rewrite get_upd_eq. unfold clearStep.
      rewrite get_patch_None, get_upd_eq.
      * apply removeEntry_absent_or_nonempty.
      * apply clearedSingletons_accounts.
    + by rewrite get_VObj, lookup_delete_eq.
Qed.

Lemma delete_default_branch key :
  key ≠ whatsapp →
  bool_decide (key = whatsapp)
    || negb (String.eqb DEFAULT_ACCOUNT_ID DEFAULT_ACCOUNT_ID) = false.
Proof. intros. by rewrite String.eqb_refl, bool_decide_eq_false_2. Qed.

(** C1, as the code has it - For every provider other than whatsapp,
    deleting the default account of a section that has no accounts map, or
    an empty one, removes the whole provider section from the document,
    whatever else the section holds, and leaves every other key of the
    document as it was. *)
Theorem delete_default_without_accounts next key :
  key ≠ whatsapp →
  hasAccounts (get next (providerName key)) = false →
  let next' := deleteAccount next DEFAULT_ACCOUNT_ID key in
  own next' !! providerName key = None
  ∧ ∀ k, k ≠ providerName key → own next' !! k = own next !! k.
Proof.
  intros Hkey Hacc next'. subst next'.
  rewrite deleteAccount_form, delete_default_branch, Hacc by done.
  simpl. split; [apply lookup_delete_eq|].
  intros k Hk. by rewrite lookup_delete_ne.
Qed.

(** C2, as the code has it - For every provider other than whatsapp,
    deleting the default account of a section with a non-empty accounts map
    removes the default entry from the map and lets every other entry
    survive; it also sets the singleton credential and name fields of the
    section to [undefined]; every other field of the section and every other
    key of the document stay as they were. *)
Theorem delete_default_with_accounts next key :
  key ≠ whatsapp →
  hasAccounts (get next (providerName key)) = true →
  let next' := deleteAccount next DEFAULT_ACCOUNT_ID key in
  let sec := get next (providerName key) in
  let sec' := get next' (providerName key) in
  (∀ id, id ≠ DEFAULT_ACCOUNT_ID →
     get (get sec' "accounts") id = get (get sec "accounts") id)
  ∧ get (get sec' "accounts") DEFAULT_ACCOUNT_ID = VUndef
  ∧ (∀ k, k ∈ singletonFields key → get sec' k = VUndef)
  ∧ (∀ k, k ≠ "accounts" → k ∉ singletonFields key → get sec' k = get sec k)
  ∧ (∀ k, k ≠ providerName key → get next' k = get next k).
Proof.
  intros Hkey Hacc next' sec sec'. subst next' sec sec'.
  rewrite deleteAccount_form, delete_default_branch, Hacc by done.
  rewrite get_upd_eq. unfold clearStep.
  pose proof (clearedSingletons_accounts key) as Hnone.
  repeat split.
  - intros id Hid. rewrite get_patch_None, get_upd_eq by done.
    by apply get_removeEntry_ne.
  - rewrite get_patch_None, get_upd_eq by done. apply get_removeEntry_eq.
  - intros k Hin. apply get_patch_Some.
    rewrite own_clearedSingletons. by rewrite bool_decide_eq_true_2.
  - intros k Hk Hin. rewrite get_patch_None, get_upd_ne; [done..|].
    rewrite own_clearedSingletons. by rewrite bool_decide_eq_false_2.
  - intros k Hk. by rewrite get_upd_ne.
Qed.

(** ** Enabling and disabling an account *)

(** C6 - Set account enabled.  For whatsapp the flag is written into
    [accounts[accountKey].enabled].  For the other providers: when the
    account is the default one and the section has no accounts map, the flag
    is written on the section and no accounts map is created; otherwise it is
    written into [accounts[accountKey].enabled].  In each case the other
    fields of the record written to are kept; and once the section holds an
    accounts map with an entry, the default account is handled through
    [accounts[DEFAULT_ACCOUNT_ID]] and the flag of the section is left
    alone. *)
Theorem set_account_enabled_semantics next accountKey key enabled :
  let sec := get next (providerName key) in
  let sec' := get (setAccountEnabled next accountKey key enabled) (providerName key) in
  let entry := get (get sec "accounts") accountKey in
  let entry' := get (get sec' "accounts") accountKey in
  (key = whatsapp →
     get entry' "enabled" = VBool enabled
     ∧ ∀ k, k ≠ "enabled" → get entry' k = get entry k)
  ∧ (key ≠ whatsapp → accountKey = DEFAULT_ACCOUNT_ID →
     get sec "accounts" = VUndef →
     get sec' "enabled" = VBool enabled
     ∧ get sec' "accounts" = VUndef
     ∧ ∀ k, k ≠ "enabled" → get sec' k = get sec k)
  ∧ (key ≠ whatsapp →
     (accountKey ≠ DEFAULT_ACCOUNT_ID ∨ ∃ m, get sec "accounts" = VObj m) →
     get entry' "enabled" = VBool enabled
     ∧ ∀ k, k ≠ "enabled" → get entry' k = get entry k)
  ∧ (key ≠ whatsapp → accountKey = DEFAULT_ACCOUNT_ID →
     hasAccounts sec = true →
     get (get (get sec' "accounts") DEFAULT_ACCOUNT_ID) "enabled" = VBool enabled
     ∧ get sec' "enabled" = get sec "enabled").
Proof.
  intros sec sec' entry entry'. subst sec' entry entry'.
  rewrite setAccountEnabled_form, get_upd_eq. fold sec.
  assert (∀ k, get (get (get (entryStep ∅ accountKey {[ "enabled" := VBool enabled ]} sec)
                       "accounts") accountKey) k
               = if decide (k = "enabled") then VBool enabled
                 else get (get (get sec "accounts") accountKey) k) as Hentry.
  { intros k. rewrite entry_entryStep_eq by done. case_decide as Hk.
    - subst k. by apply get_patch_Some.
    - by rewrite get_patch_None by by rewrite lookup_singleton_ne. }
  assert (∀ k, k ≠ "enabled" →
            get (get (get (entryStep ∅ accountKey {[ "enabled" := VBool enabled ]} sec)
                       "accounts") accountKey) k
            = get (get (get sec "accounts") accountKey) k) as Hframe.
  { intros k Hk. rewrite Hentry. by case_decide. }
  split; [|split; [|split]].
  - intros ->. split; [by rewrite Hentry|done].
  - intros Hkey -> Hnone. rewrite String.eqb_refl, Hnone. simpl.
    destruct key; try done; unfold flatStep;
      (split; [by apply get_patch_Some|]);
      (split; [by rewrite get_patch_None|]);
      intros k Hk; by rewrite get_patch_None by by rewrite lookup_singleton_ne.
  - intros Hkey Hcase.
    assert (String.eqb accountKey DEFAULT_ACCOUNT_ID
              && negb (truthy (get sec "accounts")) = false) as ->.
    { destruct Hcase as [Hne|[m Hm]].
      - apply String.eqb_neq in Hne. by rewrite Hne.
      - rewrite Hm. simpl. apply andb_false_r. }
    destruct key; try done; (split; [by rewrite Hentry|done]).
  - intros Hkey -> Hacc.
    assert (truthy (get sec "accounts") = true) as Htruthy.
    { unfold hasAccounts in Hacc. by destruct (get sec "accounts"). }
    rewrite Htruthy, andb_false_r.
    destruct key; try done;
      (split; [by rewrite Hentry|]);
      by rewrite get_entryStep_other, get_patch_None.
Qed.

(** ** The Telegram scenario *)


(** ** More on the add patch *)

Lemma configStep_record_Some p a E sec k x :
  E !! k = Some x → get (recordOf p a (configStep p a E sec)) k = x.
Proof.
  intros HE. unfold recordOf, configStep.
  destruct p; try destruct (String.eqb a DEFAULT_ACCOUNT_ID);
    first [ by apply get_patch_Some
          | by rewrite entry_entryStep_eq; [apply get_patch_Some|] ].
Qed.

(** Adding or updating an account always leaves [enabled = true] on the
    record of that account, whatever the provider and the account id. *)
Theorem add_account_enables_record cfg params :
  get (accountRecord (applyProviderAccountConfig cfg params) (provider params)
         (normalizeAccountId (Some (accountId params)))) "enabled"
  = VBool true.
Proof.
  destruct (config_form params) as (E & Hen & _ & Hform).
  unfold accountRecord. rewrite Hform, get_upd_eq.
  by apply configStep_record_Some.
Qed.

(** The add patch changes the section of its own provider and nothing else:
    every other key of the document, the sections of the other providers
    among them, is as it was. *)
Theorem add_account_touches_one_section cfg params k :
  k ≠ providerName (provider params) →
  own (applyProviderAccountConfig cfg params) !! k = own cfg !! k.
Proof.
  intros Hk.
  destruct (applyProviderAccountConfig_steps params) as (X & _ & Hform).
  rewrite Hform. unfold upd. simpl. by rewrite lookup_insert_ne.
Qed.

Lemma accounts_nameStep_other p a' t sec id :
  id ≠ a' →
  get (get (nameStep p a' t sec) "accounts") id = get (get sec "accounts") id.
Proof.
  intros Hid. unfold nameStep.
  destruct p; try destruct (String.eqb a' DEFAULT_ACCOUNT_ID); unfold flatStep;
    first [ by rewrite entry_entryStep_ne | by rewrite get_patch_None ].
Qed.

Lemma accounts_configStep_other p a E sec id :
  E !! "accounts" = None → id ≠ a →
  get (get (configStep p a E sec) "accounts") id = get (get sec "accounts") id.
Proof.
  intros HE Hid. unfold configStep.
  destruct p; try destruct (String.eqb a DEFAULT_ACCOUNT_ID); unfold flatStep;
    first [ by rewrite entry_entryStep_ne | by rewrite get_patch_None ].
Qed.

(** Adding an account leaves the entries of every other account of the
    provider as they were.  (The display name is filed under the id
    normalized a second time, hence the second inequality.) *)
Theorem add_account_keeps_other_accounts cfg params id :
  let a := normalizeAccountId (Some (accountId params)) in
  id ≠ a → id ≠ normalizeAccountId (Some a) →
  get (get (get (applyProviderAccountConfig cfg params)
              (providerName (provider params))) "accounts") id
  = get (get (get cfg (providerName (provider params))) "accounts") id.
Proof.
  intros a Hid Hid'.
  destruct (config_form params) as (E & _ & Hframe & Hform).
  rewrite Hform, get_upd_eq.
  rewrite accounts_configStep_other;
    [|apply Hframe; [done|apply requested_accounts]|done].
  rewrite applyAccountName_form.
  destruct (trim <$> trimmedName params) as [t|]; [|done].
  destruct (negb _); [|done].
  rewrite get_upd_eq. by apply accounts_nameStep_other.
Qed.

(** [applyAccountName]: a blank or absent name changes nothing; any other
    name is stored, trimmed, as the [name] of the account's record, and the
    other fields of the record and the other keys of the document are as
    they were. *)
Theorem applyAccountName_writes_name cfg p accountId n :
  let a := normalizeAccountId (Some accountId) in
  let doc := applyAccountName cfg p accountId (Some n) in
  applyAccountName cfg p accountId None = cfg
  ∧ (trim n = "" → doc = cfg)
  ∧ (trim n ≠ "" →
     get (accountRecord doc p a) "name" = VStr (trim n)
     ∧ (∀ k, k ≠ "name" → get (accountRecord doc p a) k = get (accountRecord cfg p a) k)
     ∧ (∀ k, k ≠ providerName p → own doc !! k = own cfg !! k)).
Proof.
  intros a doc. subst doc. rewrite !applyAccountName_form. simpl.
  split; [done|]. split.
  - intros ->. done.
  - intros Hn. apply String.eqb_neq in Hn. rewrite Hn. simpl.
    unfold accountRecord. rewrite get_upd_eq. fold a.
    assert (∀ k, get (recordOf p a (nameStep p a (trim n) (get cfg (providerName p)))) k
                 = if decide (k = "name") then VStr (trim n)
                   else get (recordOf p a (get cfg (providerName p))) k) as Hrec.
    { intros k. unfold recordOf, nameStep, flatStep.
      destruct p; try destruct (String.eqb a DEFAULT_ACCOUNT_ID);
        rewrite ?entry_entryStep_eq by done;
        (case_decide as Hk;
         [ subst k; by apply get_patch_Some
         | apply get_patch_None; by rewrite lookup_singleton_ne ]). }
    split; [by rewrite Hrec|]. split.
    + intros k Hk. rewrite Hrec. by case_decide.
    + intros k Hk. unfold upd. simpl. by rewrite lookup_insert_ne.
Qed.

(** The add patch of a Telegram request, with the fields it lays down
    spelled out. *)
Lemma telegram_form cfg params :
  provider params = telegram →
  let a := normalizeAccountId (Some (accountId params)) in
  let fromEnv :=
    String.eqb a DEFAULT_ACCOUNT_ID
    && match useEnv params with Some true => true | _ => false end in
  applyProviderAccountConfig cfg params
  = upd "telegram"
      (configStep telegram a
         (fields ["enabled" ::: VBool true;
                  Spread (if fromEnv then object []
                          else if present (tokenFile params)
                            then object ["tokenFile" ::: VStr (default "" (tokenFile params))]
                          else if present (token params)
                            then object ["botToken" ::: VStr (default "" (token params))]
                          else object []);
                  nameField (trimmedName params)]))
      (applyAccountName cfg telegram a (trimmedName params)).
Proof.
  intros Hp a fromEnv. subst a fromEnv.
  unfold applyProviderAccountConfig, configStep. fold (trimmedName params).
  rewrite Hp.
  destruct (String.eqb _ DEFAULT_ACCOUNT_ID); simpl.
  - apply literal_upd. apply object_spread.
  - apply literal_upd. apply literal_entry_enabled.
Qed.

Lemma nameStep_record_credential p a a' t sec k :
  k ≠ "name" → k ≠ "accounts" →
  get (recordOf p a (nameStep p a' t sec)) k = get (recordOf p a sec) k.
Proof. intros Hn Ha. apply nameStep_record; [done|]. by intros ->. Qed.

Lemma applyAccountName_record cfg p a nm k :
  k ≠ "name" → k ≠ "accounts" →
  get (recordOf p a (get (applyAccountName cfg p a nm) (providerName p))) k
  = get (recordOf p a (get cfg (providerName p))) k.
Proof.
  intros Hn Ha. rewrite applyAccountName_form.
  destruct (trim <$> nm) as [t|]; [|done].
  destruct (negb _); [|done].
  rewrite get_upd_eq. by apply nameStep_record_credential.
Qed.

(** Telegram takes the token file before the token: when the request
    supplies a [tokenFile] (and the value is not left to the environment),
    the record gets that [tokenFile] and its [botToken] stays as it was, also
    when the request carries a [token] too. *)
Theorem telegram_tokenFile_before_token cfg params tf :
  provider params = telegram →
  tokenFile params = Some tf → tf ≠ "" →
  let a := normalizeAccountId (Some (accountId params)) in
  (useEnv params = Some true → a ≠ DEFAULT_ACCOUNT_ID) →
  let doc := applyProviderAccountConfig cfg params in
  get (accountRecord doc telegram a) "tokenFile" = VStr tf
  ∧ get (accountRecord doc telegram a) "botToken"
    = get (accountRecord cfg telegram a) "botToken".
Proof.
  intros Hp Htf Hne a Henv doc. subst doc.
  rewrite (telegram_form cfg params Hp). fold a.
  assert (String.eqb a DEFAULT_ACCOUNT_ID
          && match useEnv params with Some true => true | _ => false end = false)
    as ->.
  { destruct (useEnv params) as [[|]|]; rewrite ?andb_false_r; try done.
    rewrite andb_true_r. apply String.eqb_neq. by apply Henv. }
  assert (present (tokenFile params) = true) as ->.
  { rewrite Htf. simpl. apply String.eqb_neq in Hne. by rewrite Hne. }
  rewrite Htf. cbn [default]. unfold accountRecord. rewrite !get_upd_eq. split.
  - apply configStep_record_Some.
    unfold fields, nameField; cbn [foldl].
    rewrite lookup_define_optField by (intros [=]).
    unfold define at 1, object. cbn [foldl own define].
    rewrite lookup_union_l'; by rewrite lookup_insert_eq.
  - rewrite configStep_record.
    + by apply applyAccountName_record.
    + unfold fields, nameField; cbn [foldl].
      rewrite lookup_define_optField by (intros [=]).
      rewrite lookup_define_spread_None
        by (unfold object; cbn [foldl own define]; by rewrite lookup_insert_ne).
      by rewrite lookup_define_field_ne.
Qed.

(** With [useEnv] on the default account of telegram, discord or slack the
    add patch lays down [enabled] and the name, and nothing else. *)
Lemma useEnv_default_form cfg params :
  provider params = telegram ∨ provider params = discord ∨ provider params = slack →
  useEnv params = Some true →
  normalizeAccountId (Some (accountId params)) = DEFAULT_ACCOUNT_ID →
  applyProviderAccountConfig cfg params
  = upd (providerName (provider params))
      (flatStep (fields ["enabled" ::: VBool true; Spread (object []);
                         nameField (trimmedName params)]))
      (applyAccountName cfg (provider params) DEFAULT_ACCOUNT_ID (trimmedName params)).
Proof.
  intros Hp Henv Ha.
  unfold applyProviderAccountConfig. fold (trimmedName params).
  rewrite Ha, Henv, String.eqb_refl.
  destruct Hp as [Hp|[Hp|Hp]]; rewrite Hp; apply literal_upd, object_spread.
Qed.

(** Credentials left to the environment are not written: with [useEnv] set
    on the default account of telegram, discord or slack, every field of the
    section other than [enabled], [name] and [accounts] keeps its value, also
    when the request carries tokens. *)
Theorem useEnv_default_writes_no_credential cfg params k :
  provider params = telegram ∨ provider params = discord ∨ provider params = slack →
  useEnv params = Some true →
  normalizeAccountId (Some (accountId params)) = DEFAULT_ACCOUNT_ID →
  k ≠ "enabled" → k ≠ "name" → k ≠ "accounts" →
  get (get (applyProviderAccountConfig cfg params) (providerName (provider params))) k
  = get (get cfg (providerName (provider params))) k.
Proof.
  intros Hp Henv Ha Hk1 Hk2 Hk3.
  rewrite (useEnv_default_form cfg params Hp Henv Ha), get_upd_eq.
  unfold flatStep. rewrite get_patch_None.
  - pose proof (applyAccountName_record cfg (provider params) DEFAULT_ACCOUNT_ID
                  (trimmedName params) k Hk2 Hk3) as Hrec.
    unfold recordOf in Hrec. rewrite String.eqb_refl in Hrec.
    by destruct Hp as [Hp|[Hp|Hp]]; rewrite Hp in Hrec |- *.
  - unfold fields, nameField; cbn [foldl].
    rewrite lookup_define_optField by (by intros ->).
    rewrite lookup_define_spread_None by done.
    by rewrite lookup_define_field_ne.
Qed.

(** ** More on enabling and disabling *)

Lemma entryStep_overwrite P a E1 E2 sec :
  P !! "accounts" = None → E2 ∪ E1 = E2 →
  entryStep P a E2 (entryStep P a E1 sec) = entryStep P a E2 sec.
Proof.
  intros HP HE. unfold entryStep.
  rewrite <- (upd_patch "accounts" _ P) by done.
  rewrite upd_upd, patch_patch, (idemp_L (∪)).
  apply upd_ext. rewrite upd_upd. apply upd_ext.
  by rewrite patch_patch, HE.
Qed.

Lemma enabled_overwrite (b1 b2 : bool) :
  ({[ "enabled" := VBool b2 ]} : gmap string value) ∪ {[ "enabled" := VBool b1 ]}
  = {[ "enabled" := VBool b2 ]}.
Proof.
  apply map_eq. intros k. rewrite lookup_union.
  destruct (decide (k = "enabled")) as [->|Hk].
  - by rewrite !lookup_singleton_eq.
  - by rewrite !lookup_singleton_ne.
Qed.

Lemma setAccountEnabled_enableStep next accountKey key enabled :
  setAccountEnabled next accountKey key enabled
  = upd (providerName key)
      (enableStep accountKey key enabled (get next (providerName key))) next.
Proof. rewrite setAccountEnabled_form. unfold enableStep. by destruct key. Qed.

(** The branch taken a second time is the branch taken the first time. *)
Lemma enableStep_stable accountKey key b1 b2 sec :
  enableStep accountKey key b2 (enableStep accountKey key b1 sec sec)
  = enableStep accountKey key b2 sec.
Proof.
  unfold enableStep. destruct key; try done;
    (destruct (String.eqb accountKey DEFAULT_ACCOUNT_ID); simpl; [|done];
     destruct (truthy (get sec "accounts")) eqn:Ht; simpl;
     [ by rewrite accounts_entryStep
     | unfold flatStep; by rewrite get_patch_None, Ht ]).
Qed.

(** The last write wins: setting the flag of an account twice is the same
    as setting it once to the second value; in particular the operation is
    idempotent. *)
Theorem setAccountEnabled_last_wins next accountKey key b1 b2 :
  setAccountEnabled (setAccountEnabled next accountKey key b1) accountKey key b2
  = setAccountEnabled next accountKey key b2.
Proof.
  rewrite !setAccountEnabled_enableStep, get_upd_eq, upd_upd.
  rewrite enableStep_stable. apply upd_ext.
  unfold enableStep.
  destruct key; try destruct (_ && _);
    first [ by apply entryStep_overwrite; [|apply enabled_overwrite]
          | unfold flatStep; by rewrite patch_patch, enabled_overwrite ].
Qed.

(** Enabling or disabling an account keeps the configuration: the other
    accounts of the provider, the fields of the section other than [enabled]
    and [accounts], and every other key of the document are as they were. *)
Theorem setAccountEnabled_keeps_config next accountKey key enabled :
  let next' := setAccountEnabled next accountKey key enabled in
  let sec := get next (providerName key) in
  let sec' := get next' (providerName key) in
  (∀ id, id ≠ accountKey →
     get (get sec' "accounts") id = get (get sec "accounts") id)
  ∧ (∀ k, k ≠ "enabled" → k ≠ "accounts" → get sec' k = get sec k)
  ∧ (∀ k, k ≠ providerName key → own next' !! k = own next !! k).
Proof.
  intros next' sec sec'. subst next' sec'.
  rewrite setAccountEnabled_enableStep, get_upd_eq. fold sec.
  assert (({[ "enabled" := VBool enabled ]} : gmap string value) !! "accounts" = None)
    as Hacc by done.
  split; [|split].
  - intros id Hid. unfold enableStep.
    destruct key; try destruct (_ && _); unfold flatStep;
      first [ by rewrite entry_entryStep_ne | by rewrite get_patch_None ].
  - intros k Hk1 Hk2. unfold enableStep.
    destruct key; try destruct (_ && _); unfold flatStep;
      first [ by rewrite get_entryStep_other, get_patch_None
            | by rewrite get_patch_None by by rewrite lookup_singleton_ne ].
  - intros k Hk. unfold upd. simpl. by rewrite lookup_insert_ne.
Qed.

(** ** More on deleting *)

Lemma delete_entry_branch accountKey key :
  key = whatsapp ∨ accountKey ≠ DEFAULT_ACCOUNT_ID →
  bool_decide (key = whatsapp)
    || negb (String.eqb accountKey DEFAULT_ACCOUNT_ID) = true.
Proof.
  intros [->|Hne]; [done|].
  apply String.eqb_neq in Hne. rewrite Hne. apply orb_true_r.
Qed.

Lemma removeEntry_idempotent k accounts :
  removeEntry k (removeEntry k accounts) = removeEntry k accounts.
Proof.
  destruct (removeEntry_cases k accounts) as [[Hr _]|[Hr Hsz]].
  - rewrite Hr. destruct (removeEntry_cases k VUndef) as [[Hu _]|[_ Hu]]; [done|].
    simpl in Hu. by rewrite delete_empty, map_size_empty in Hu.
  - rewrite Hr.
    destruct (removeEntry_cases k (VObj (delete k (own accounts))))
      as [[_ He]|[Hr' _]]; simpl in *.
    + rewrite delete_delete_eq in He. by rewrite He, map_size_empty in Hsz.
    + by rewrite Hr', delete_delete_eq.
Qed.

(** Deleting a whatsapp account, or a named account of any other provider,
    removes the entry of that account and nothing else: the other entries,
    the other fields of the section (its singleton credentials among them)
    and the other keys of the document are as they were. *)
Theorem delete_named_account_removes_entry next accountKey key :
  key = whatsapp ∨ accountKey ≠ DEFAULT_ACCOUNT_ID →
  let next' := deleteAccount next accountKey key in
  let sec := get next (providerName key) in
  let sec' := get next' (providerName key) in
  get (get sec' "accounts") accountKey = VUndef
  ∧ (∀ id, id ≠ accountKey →
       get (get sec' "accounts") id = get (get sec "accounts") id)
  ∧ (∀ k, k ≠ "accounts" → get sec' k = get sec k)
  ∧ (∀ k, k ≠ providerName key → own next' !! k = own next !! k).
Proof.
  intros Hcase next' sec sec'. subst next' sec'.
  rewrite deleteAccount_form, (delete_entry_branch _ _ Hcase), get_upd_eq.
  fold sec. repeat split.
  - rewrite get_upd_eq. apply get_removeEntry_eq.
  - intros id Hid. rewrite get_upd_eq. by apply get_removeEntry_ne.
  - intros k Hk. by rewrite get_upd_ne.
  - intros k Hk. unfold upd. simpl. by rewrite lookup_insert_ne.
Qed.

(** Deleting is idempotent for a whatsapp account, for a named account, and
    for the default account of a section without accounts. *)
Theorem delete_account_idempotent next accountKey key :
  key = whatsapp ∨ accountKey ≠ DEFAULT_ACCOUNT_ID
  ∨ hasAccounts (get next (providerName key)) = false →
  deleteAccount (deleteAccount next accountKey key) accountKey key
  = deleteAccount next accountKey key.
Proof.
  intros Hcase. rewrite !deleteAccount_form.
  destruct (bool_decide (key = whatsapp)
            || negb (String.eqb accountKey DEFAULT_ACCOUNT_ID)) eqn:Hb.
  - rewrite upd_upd. apply upd_ext. rewrite upd_upd. apply upd_ext.
    apply removeEntry_idempotent.
  - destruct Hcase as [Hw|[Hne|Hacc]].
    + by rewrite (delete_entry_branch accountKey key (or_introl Hw)) in Hb.
    + by rewrite (delete_entry_branch accountKey key (or_intror Hne)) in Hb.
    + rewrite Hacc. rewrite get_VObj, lookup_delete_eq. simpl.
      by rewrite delete_delete_eq.
Qed.

(** Deleting the default account is not idempotent when the default entry is
    the only entry of the accounts map: the first delete keeps the section,
    with its singleton fields cleared and without accounts map, and a second
    delete removes the section. *)
Theorem delete_default_twice next key m :
  key ≠ whatsapp →
  get (get next (providerName key)) "accounts" = VObj m →
  m ≠ ∅ → delete DEFAULT_ACCOUNT_ID m = ∅ →
  let once := deleteAccount next DEFAULT_ACCOUNT_ID key in
  let twice := deleteAccount once DEFAULT_ACCOUNT_ID key in
  (is_Some (own once !! providerName key)
   ∧ get (get once (providerName key)) "accounts" = VUndef)
  ∧ own twice !! providerName key = None.
Proof.
  intros Hkey Hm Hne Honly once twice. subst twice once.
  assert (hasAccounts (get next (providerName key)) = true) as Hacc.
  { unfold hasAccounts. rewrite Hm.
    apply map_size_non_empty_iff in Hne. by destruct (size m). }
  assert (removeEntry DEFAULT_ACCOUNT_ID (VObj m) = VUndef) as Hrm.
  { destruct (removeEntry_cases DEFAULT_ACCOUNT_ID (VObj m)) as [[Hr _]|[_ Hsz]];
      [done|]. simpl in Hsz. by rewrite Honly, map_size_empty in Hsz. }
  assert (get (get (deleteAccount next DEFAULT_ACCOUNT_ID key) (providerName key))
            "accounts" = VUndef) as Hgone.
  { rewrite deleteAccount_form, delete_default_branch, Hacc by done.
    rewrite get_upd_eq. unfold clearStep.
    rewrite get_patch_None by apply clearedSingletons_accounts.
    by rewrite get_upd_eq, Hm. }
  split; [split|].
  - rewrite deleteAccount_form, delete_default_branch, Hacc by done.
    unfold upd. simpl. rewrite lookup_insert_eq. by eexists.
  - exact Hgone.
  - rewrite (deleteAccount_form (deleteAccount _ _ _)), delete_default_branch by done.
    unfold hasAccounts. rewrite Hgone. simpl. apply lookup_delete_eq.
Qed.

(** Add, then delete: for whatsapp and for a named account of any other
    provider, deleting the account just added leaves no entry for it, and
    the entries of the other accounts are those from before the add. *)
Theorem add_then_delete_account cfg params id :
  let p := provider params in
  let a := normalizeAccountId (Some (accountId params)) in
  p = whatsapp ∨ a ≠ DEFAULT_ACCOUNT_ID →
  let doc := deleteAccount (applyProviderAccountConfig cfg params) a p in
  get (get (get doc (providerName p)) "accounts") a = VUndef
  ∧ (id ≠ a → id ≠ normalizeAccountId (Some a) →
     get (get (get doc (providerName p)) "accounts") id
     = get (get (get cfg (providerName p)) "accounts") id).
Proof.
  intros p a Hcase doc. subst doc.
  rewrite deleteAccount_form, (delete_entry_branch _ _ Hcase), !get_upd_eq.
  split; [apply get_removeEntry_eq|].
  intros Hid Hid'. rewrite get_removeEntry_ne by done.
  destruct (config_form params) as (E & _ & Hframe & Hform).
  rewrite Hform, get_upd_eq. fold p a.
  rewrite accounts_configStep_other;
    [|apply Hframe; [done|apply requested_accounts]|done].
  rewrite applyAccountName_form.
  destruct (trim <$> trimmedName params) as [t|]; [|done].
  destruct (negb _); [|done].
  rewrite get_upd_eq. by apply accounts_nameStep_other.
Qed.

(** Disable, then add again: in a section that holds an accounts map, the
    default account is disabled in [accounts[DEFAULT_ACCOUNT_ID]] and added
    on the section, so adding the default account again sets [enabled] on
    the section and leaves the entry disabled. *)
Theorem disable_then_add_default cfg params m :
  provider params ≠ whatsapp →
  normalizeAccountId (Some (accountId params)) = DEFAULT_ACCOUNT_ID →
  normalizeAccountId (Some DEFAULT_ACCOUNT_ID) = DEFAULT_ACCOUNT_ID →
  get (get cfg (providerName (provider params))) "accounts" = VObj m →
  let key := provider params in
  let disabled := setAccountEnabled cfg DEFAULT_ACCOUNT_ID key false in
  let doc := applyProviderAccountConfig disabled params in
  get (get doc (providerName key)) "enabled" = VBool true
  ∧ get (get (get (get doc (providerName key)) "accounts") DEFAULT_ACCOUNT_ID) "enabled"
    = VBool false.
Proof.
  intros Hp Ha Hstable Hm key disabled doc. subst doc disabled key.
  destruct (config_form params) as (E & Hen & Hframe & Hform).
  rewrite Hform, get_upd_eq, Ha.
  remember (provider params) as key eqn:Hkey. clear Hform Hkey.
  assert (E !! "accounts" = None) as Hacc.
  { apply Hframe; [done|apply requested_accounts]. }
  assert (configStep key DEFAULT_ACCOUNT_ID E = flatStep E) as ->.
  { unfold configStep. rewrite String.eqb_refl. by destruct key. }
  assert (∀ sec, get (get (applyAccountName sec key DEFAULT_ACCOUNT_ID
                             (trimmedName params)) (providerName key)) "accounts"
                 = get (get sec (providerName key)) "accounts") as Hname.
  { intros sec. rewrite applyAccountName_form.
    destruct (trim <$> trimmedName params) as [t|]; [|done].
    destruct (negb _); [|done].
    rewrite get_upd_eq, Hstable. unfold nameStep. rewrite String.eqb_refl.
    destruct key; try done; unfold flatStep; by rewrite get_patch_None. }
  unfold flatStep. split.
  - by apply get_patch_Some.
  - rewrite get_patch_None, Hname by done.
    rewrite setAccountEnabled_enableStep, get_upd_eq.
    unfold enableStep. rewrite Hm. simpl. rewrite andb_false_r.
    destruct key; try done;
      (rewrite entry_entryStep_eq by done; by apply get_patch_Some).
Qed.

(** ** What the add patch stores *)

Lemma lookup_define_optField_eq acc k s :
  s ≠ "" → define acc (optField k (Some s)) !! k = Some (VStr s).
Proof.
  intros Hs%String.eqb_neq. unfold optField. rewrite Hs. simpl.
  apply lookup_union_Some_l. unfold object. simpl. apply lookup_insert_eq.
Qed.

Lemma lookup_define_spread_field acc k v :
  define acc (Spread (object [k ::: v])) !! k = Some v.
Proof.
  simpl. apply lookup_union_Some_l. unfold object. simpl. apply lookup_insert_eq.
Qed.

(** The add patch of a Signal request, with the fields it lays down spelled
    out; they are the same for the default and for a named account. *)
Lemma signal_form cfg params :
  provider params = signal →
  let a := normalizeAccountId (Some (accountId params)) in
  applyProviderAccountConfig cfg params
  = upd "signal"
      (configStep signal a
         (fields ["enabled" ::: VBool true;
                  optField "account" (signalNumber params);
                  optField "cliPath" (cliPath params);
                  optField "httpUrl" (httpUrl params);
                  optField "httpHost" (httpHost params);
                  Spread (if present (httpPort params)
                            then object ["httpPort" ::: Number (default "" (httpPort params))]
                          else object []);
                  nameField (trimmedName params)]))
      (applyAccountName cfg signal a (trimmedName params)).
Proof.
  intros Hp a. subst a.
  unfold applyProviderAccountConfig, configStep. fold (trimmedName params).
  rewrite Hp.
  destruct (String.eqb _ DEFAULT_ACCOUNT_ID).
  - apply literal_upd. apply object_spread.
  - apply literal_upd. apply literal_entry_enabled.
Qed.

Ltac skip_later_fields :=
  unfold fields, nameField; cbn [foldl];
  repeat first
    [ rewrite lookup_define_optField by (intros [=])
    | rewrite lookup_define_spread_None
        by (repeat case_match; unfold object; cbn [foldl own];
            rewrite ?lookup_define_field_ne by (intros [=]);
            apply lookup_empty) ].

(** What a Signal request supplies is what the record holds afterwards: the
    number under [account], the paths and the HTTP parts under their own
    names, and the port as the number that [Number] reads from its text. *)
Theorem signal_fields_stored cfg params :
  provider params = signal →
  let a := normalizeAccountId (Some (accountId params)) in
  let record := accountRecord (applyProviderAccountConfig cfg params) signal a in
  (∀ s, signalNumber params = Some s → s ≠ "" → get record "account" = VStr s)
  ∧ (∀ s, cliPath params = Some s → s ≠ "" → get record "cliPath" = VStr s)
  ∧ (∀ s, httpUrl params = Some s → s ≠ "" → get record "httpUrl" = VStr s)
  ∧ (∀ s, httpHost params = Some s → s ≠ "" → get record "httpHost" = VStr s)
  ∧ (∀ s, httpPort params = Some s → s ≠ "" → get record "httpPort" = Number s).
Proof.
  intros Hp a record. subst record.
  rewrite (signal_form cfg params Hp). fold a.
  unfold accountRecord. rewrite get_upd_eq.
  repeat split; intros s Hs Hne; apply configStep_record_Some; rewrite Hs;
    skip_later_fields.
  - by apply lookup_define_optField_eq.
  - by apply lookup_define_optField_eq.
  - by apply lookup_define_optField_eq.
  - by apply lookup_define_optField_eq.
  - apply String.eqb_neq in Hne. simpl. rewrite Hne. simpl.
    apply lookup_define_spread_field.
Qed.

(** ** The flag-driven add command *)

Lemma noWrite_requireValidConfig snapshot :
  noWrite (requireValidConfig snapshot).1.
Proof.
  unfold requireValidConfig, noWrite. intros doc.
  destruct (_ && _); simpl; [|apply not_elem_of_nil].
  rewrite !elem_of_cons. intros [?|[?|[?|Hnil]]]; try discriminate.
  by apply elem_of_nil in Hnil.
Qed.

Lemma noWrite_fail out msg :
  noWrite out → noWrite (out ++ [EError msg; EExit 1])%list.
Proof.
  intros Hout doc. rewrite elem_of_app, !elem_of_cons.
  intros [?|[?|[?|Hnil]]]; try discriminate.
  - by apply (Hout doc).
  - by apply elem_of_nil in Hnil.
Qed.

Lemma requireValidConfig_usable snapshot :
  usable snapshot → requireValidConfig snapshot = ([], snap_config snapshot).
Proof. intros [Hv _]. unfold requireValidConfig. by rewrite Hv. Qed.

Lemma useEnv_not_set (o : option bool) :
  o ≠ Some true → match o with Some true => true | _ => false end = false.
Proof. by destruct o as [[|]|]. Qed.

(** What the command does once a check fails. *)
Lemma providersAddCommand_rejects snapshot opts msg :
  AddRejected opts msg →
  providersAddCommand snapshot opts
  = if negb (truthy (requireValidConfig snapshot).2)
    then (requireValidConfig snapshot).1
    else ((requireValidConfig snapshot).1 ++ [EError msg; EExit 1])%list.
Proof.
  intros Hrej. unfold providersAddCommand.
  destruct (requireValidConfig snapshot) as [out cfg]. simpl.
  destruct (truthy cfg); simpl; [|done].
  destruct Hrej as [Hp|Hp Htk Htf Hue|Hp Htk Hue|Hp Hboth Hue
                   |Hp Hsn Hhu Hhh Hhp Hcli|Hp Hue Hid|Hp Hue Hid|Hp Hue Hid];
    rewrite Hp; try done.
  - by rewrite (useEnv_not_set _ Hue), Htk, Htf.
  - by rewrite (useEnv_not_set _ Hue), Htk.
  - rewrite (useEnv_not_set _ Hue). simpl.
    destruct (present (ProvidersAddOptions.botToken opts)); [|done].
    destruct (present (ProvidersAddOptions.appToken opts)); [|done].
    by destruct Hboth.
  - by rewrite Hsn, Hhu, Hhh, Hhp, Hcli.
  - apply String.eqb_neq in Hid. by rewrite Hue, Hid.
  - apply String.eqb_neq in Hid. by rewrite Hue, Hid.
  - apply String.eqb_neq in Hid. by rewrite Hue, Hid.
Qed.

(** C7 - A validation failure of the flag-driven add command (unknown
    provider; telegram, discord or slack without their tokens and without
    [useEnv]; signal without any of its five fields; [useEnv] with an account
    other than the default one on telegram, discord or slack) never writes
    the config; on a snapshot that loads, the command reports the message of
    the failed requirement and exits with status 1, and does nothing else. *)
Theorem add_rejected_before_any_write snapshot opts msg :
  AddRejected opts msg →
  noWrite (providersAddCommand snapshot opts)
  ∧ (usable snapshot →
     providersAddCommand snapshot opts = [EError msg; EExit 1]).
Proof.
  intros Hrej. rewrite (providersAddCommand_rejects _ _ _ Hrej). split.
  - destruct (negb _).
    + apply noWrite_requireValidConfig.
    + apply noWrite_fail, noWrite_requireValidConfig.
  - intros Hu. rewrite (requireValidConfig_usable _ Hu). simpl.
    destruct Hu as [_ Hcfg]. by rewrite Hcfg.
Qed.

(** The flag-driven remove command hands the document and the account key
    to [deleteAccount] when [--delete] is given, and to [setAccountEnabled]
    once the prompt is confirmed; it writes nothing when the prompt is
    declined. *)
Lemma providersRemoveCommand_runs snapshot opts confirmed p :
  usable snapshot →
  normalizeChatProvider (ProvidersRemoveOptions.provider opts) = Some p →
  let accountId := normalizeAccountId (ProvidersRemoveOptions.account opts) in
  let accountKey := if String.eqb accountId "" then DEFAULT_ACCOUNT_ID else accountId in
  let next := object [Spread (snap_config snapshot)] in
  let trace := providersRemoveCommand snapshot opts confirmed in
  match ProvidersRemoveOptions.delete_ opts with
  | Some true => ∃ line, trace = [EWriteConfig (deleteAccount next accountKey p); ELog line]
  | _ =>
      if confirmed
      then ∃ line, trace = [EWriteConfig (setAccountEnabled next accountKey p false);
                            ELog line]
      else trace = []
  end.
Proof.
  intros Hu Hp accountId accountKey next trace. subst trace.
  unfold providersRemoveCommand.
  rewrite (requireValidConfig_usable _ Hu), Hp.
  destruct Hu as [_ ->]. simpl.
  destruct (ProvidersRemoveOptions.delete_ opts) as [[|]|], confirmed; simpl;
    by eauto.
Qed.

End Forms.

(** ** Strings: the ASCII functions *)

Lemma isWhiteSpace_lowerChar c : isWhiteSpace (lowerChar c) = isWhiteSpace c.
Proof. by destruct c as [[] [] [] [] [] [] [] []]. Qed.


Lemma append_cons (c : ascii) (a b : string) :
  String c a ++ b = String c (a ++ b).
Proof. reflexivity. Qed.

Lemma append_nil_r (s : string) : s ++ "" = s.
Proof. induction s as [|c s IH]; [done|]. by rewrite append_cons, IH. Qed.

Lemma append_assoc (a b c : string) : (a ++ b) ++ c = a ++ b ++ c.
Proof. induction a as [|x a IH]; [done|]. by rewrite !append_cons, IH. Qed.

Lemma rev_app_append (s acc : string) : String.rev_app s acc = String.rev s ++ acc.
Proof.
  unfold String.rev. revert acc.
  induction s as [|c s IH]; intros acc; simpl; [done|].
  rewrite (IH (String c acc)), (IH (String c "")).
  by rewrite append_assoc.
Qed.

Lemma rev_cons (c : ascii) (s : string) :
  String.rev (String c s) = String.rev s ++ String c "".
Proof. unfold String.rev at 1. simpl. apply rev_app_append. Qed.

Lemma rev_append (a b : string) : String.rev (a ++ b) = String.rev b ++ String.rev a.
Proof.
  induction a as [|c a IH].
  - change (String.rev b = String.rev b ++ ""). by rewrite append_nil_r.
  - by rewrite append_cons, !rev_cons, IH, append_assoc.
Qed.

Lemma rev_involutive (s : string) : String.rev (String.rev s) = s.
Proof.
  induction s as [|c s IH]; [done|].
  by rewrite rev_cons, rev_append, IH.
Qed.

Lemma allWhiteSpace_append a b :
  allWhiteSpace (a ++ b) = allWhiteSpace a && allWhiteSpace b.
Proof.
  induction a as [|c a IH]; [done|].
  rewrite append_cons. simpl. by rewrite IH, andb_assoc.
Qed.

Lemma allWhiteSpace_rev s : allWhiteSpace (String.rev s) = allWhiteSpace s.
Proof.
  induction s as [|c s IH]; [done|].
  rewrite rev_cons, allWhiteSpace_append, IH.
  simpl. by rewrite andb_true_r, andb_comm.
Qed.

Lemma toLowerCase_ascii_append a b :
  toLowerCase_ascii (a ++ b) = toLowerCase_ascii a ++ toLowerCase_ascii b.
Proof.
  induction a as [|c a IH]; [done|].
  rewrite append_cons. simpl. by rewrite IH.
Qed.

Lemma trimStart_ascii_padding w s :
  allWhiteSpace w = true → trimStart_ascii (w ++ s) = trimStart_ascii s.
Proof.
  induction w as [|c w IH]; [done|].
  intros Hw. simpl in Hw. apply andb_true_iff in Hw as [Hc Hw].
  rewrite ?append_cons. simpl. rewrite Hc. by apply IH.
Qed.

Lemma trimStart_ascii_solid x s :
  startsSolid x = true → trimStart_ascii (x ++ s) = x ++ s.
Proof.
  destruct x as [|c x]; [done|].
  intros Hc. simpl in Hc. apply negb_true_iff in Hc.
  rewrite ?append_cons. simpl. by rewrite Hc.
Qed.

(** Trimming removes the white space around a text that begins and ends
    with other characters. *)
Lemma trim_ascii_padding w1 x w2 :
  allWhiteSpace w1 = true → allWhiteSpace w2 = true →
  startsSolid x = true → startsSolid (String.rev x) = true →
  trim_ascii (w1 ++ x ++ w2) = x.
Proof.
  intros Hw1 Hw2 Hx Hrx. unfold trim_ascii, trimEnd_ascii.
  rewrite trimStart_ascii_padding, trimStart_ascii_solid by done.
  rewrite rev_append, trimStart_ascii_padding by by rewrite allWhiteSpace_rev.
  rewrite <- (append_nil_r (String.rev x)), trimStart_ascii_solid by done.
  by rewrite append_nil_r, rev_involutive.
Qed.

Lemma trim_ascii_blank w : allWhiteSpace w = true → trim_ascii w = "".
Proof.
  intros Hw. unfold trim_ascii.
  by rewrite <- (append_nil_r w), trimStart_ascii_padding.
Qed.

Lemma rev_toLowerCase_ascii s :
  String.rev (toLowerCase_ascii s) = toLowerCase_ascii (String.rev s).
Proof.
  induction s as [|c s IH]; [done|].
  change (toLowerCase_ascii (String c s))
    with (String (lowerChar c) (toLowerCase_ascii s)).
  by rewrite !rev_cons, toLowerCase_ascii_append, IH.
Qed.

Lemma startsSolid_toLowerCase_ascii s :
  startsSolid (toLowerCase_ascii s) = startsSolid s.
Proof. destruct s as [|c s]; simpl; [done|]. by rewrite isWhiteSpace_lowerChar. Qed.

Lemma isAscii_lowerChar c :
  (nat_of_ascii (lowerChar c) <? 128)%nat = (nat_of_ascii c <? 128)%nat.
Proof. by destruct c as [[] [] [] [] [] [] [] []]. Qed.

Lemma isAscii_toLowerCase_ascii s : isAscii (toLowerCase_ascii s) = isAscii s.
Proof.
  induction s as [|c s IH]; simpl; [done|].
  by rewrite isAscii_lowerChar, IH.
Qed.

Lemma isAscii_append a b : isAscii (a ++ b) = isAscii a && isAscii b.
Proof.
  induction a as [|c a IH]; [done|].
  rewrite append_cons. simpl. by rewrite IH, andb_assoc.
Qed.

Lemma isWhiteSpace_ascii c :
  isWhiteSpace c = true → (nat_of_ascii c <? 128)%nat = true.
Proof. by destruct c as [[] [] [] [] [] [] [] []]. Qed.

Lemma allWhiteSpace_isAscii w : allWhiteSpace w = true → isAscii w = true.
Proof.
  induction w as [|c w IH]; [done|].
  simpl. intros [Hc Hw]%andb_true_iff.
  by rewrite (isWhiteSpace_ascii c Hc), IH.
Qed.

Lemma isAscii_rev s : isAscii (String.rev s) = isAscii s.
Proof.
  induction s as [|c s IH]; [done|].
  rewrite rev_cons, isAscii_append, IH.
  simpl. by rewrite andb_true_r, andb_comm.
Qed.

Lemma isAscii_trimStart_ascii s :
  isAscii s = true → isAscii (trimStart_ascii s) = true.
Proof.
  induction s as [|c s IH]; [done|].
  simpl. destruct (isWhiteSpace c); [|done].
  intros [_ Hs]%andb_true_iff. by apply IH.
Qed.

Lemma isAscii_trim_ascii s : isAscii s = true → isAscii (trim_ascii s) = true.
Proof.
  intros Hs. unfold trim_ascii, trimEnd_ascii.
  rewrite isAscii_rev. apply isAscii_trimStart_ascii.
  rewrite isAscii_rev. by apply isAscii_trimStart_ascii.
Qed.

Lemma trimStart_ascii_toLowerCase s :
  trimStart_ascii (toLowerCase_ascii s) = toLowerCase_ascii (trimStart_ascii s).
Proof.
  induction s as [|c s IH]; simpl; [done|].
  rewrite isWhiteSpace_lowerChar. by destruct (isWhiteSpace c).
Qed.

(** Trimming and lowering commute: lowering a letter never makes or
    unmakes white space. *)
Lemma trim_ascii_toLowerCase s :
  trim_ascii (toLowerCase_ascii s) = toLowerCase_ascii (trim_ascii s).
Proof.
  unfold trim_ascii, trimEnd_ascii.
  by rewrite trimStart_ascii_toLowerCase, rev_toLowerCase_ascii,
    trimStart_ascii_toLowerCase, rev_toLowerCase_ascii.
Qed.


(** ** The provider normalizer *)

Section NormalizerProperties.
Context `{Host}.

Lemma normalizeChatProvider_lowered raw t :
  toLowerCase (trim (default "" raw)) = t →
  normalizeChatProvider raw
  = if String.eqb t "" then None
    else find (λ p, String.eqb (providerName p)
                      (if String.eqb t "imsg" then "imessage" else t))
              CHAT_PROVIDERS.
Proof. intros <-. reflexivity. Qed.

(** The search of the list and the match written out case by case agree. *)
Lemma normalizeChatProvider_cases raw :
  normalizeChatProvider raw = normalizeProvider_spec raw.
Proof.
  unfold normalizeProvider_spec.
  rewrite (normalizeChatProvider_lowered raw _ eq_refl).
  generalize (toLowerCase (trim (default "" raw))). intros t.
  repeat match goal with
         | |- context [String.eqb t ?s] =>
             lazymatch s with
             | "" => fail
             | _ => destruct (String.eqb_spec t s) as [->|?]; [reflexivity|]
             end
         end.
  destruct (String.eqb_spec t "") as [->|?]; [reflexivity|].
  unfold CHAT_PROVIDERS. cbn [find providerName].
  by rewrite !(proj2 (String.eqb_neq _ t)) by congruence.
Qed.

(** The words are in lower case already. *)
Lemma toLowerCase_word word :
  asciiRuntime → word ∈ providerWords → toLowerCase word = word.
Proof.
  intros Hrt Hin. unfold providerWords, CHAT_PROVIDERS in Hin. simpl in Hin.
  repeat (apply elem_of_cons in Hin as [->|Hin];
          [match goal with
           | |- toLowerCase ?w = _ =>
               destruct (Hrt w eq_refl) as [_ Hlower]; by rewrite Hlower
           end|]).
  by apply elem_of_nil in Hin.
Qed.

Lemma toLowerCase_providerName p :
  asciiRuntime → toLowerCase (providerName p) = providerName p.
Proof.
  intros Hrt. apply toLowerCase_word; [done|].
  unfold providerWords, CHAT_PROVIDERS. destruct p; simpl; set_solver.
Qed.

Lemma trim_blank raw :
  asciiRuntime →
  raw = None ∨ (∃ w, raw = Some w ∧ allWhiteSpace w = true) →
  toLowerCase (trim (default "" raw)) = "".
Proof.
  intros Hrt Hblank.
  assert (trim (default "" raw) = "") as ->.
  { destruct Hblank as [->|(w & -> & Hw)]; simpl.
    - by destruct (Hrt "" eq_refl) as [-> _].
    - destruct (Hrt w (allWhiteSpace_isAscii w Hw)) as [-> _].
      by apply trim_ascii_blank. }
  by destruct (Hrt "" eq_refl) as [_ ->].
Qed.

(** On ASCII text the runtime trims and lowers as the ASCII functions do,
    in either order. *)
Lemma toLowerCase_trim_ascii s :
  asciiRuntime → isAscii s = true →
  toLowerCase (trim s) = trim_ascii (toLowerCase_ascii s).
Proof.
  intros Hrt Hs.
  destruct (Hrt s Hs) as [-> _].
  destruct (Hrt (trim_ascii s) (isAscii_trim_ascii s Hs)) as [_ ->].
  by rewrite trim_ascii_toLowerCase.
Qed.

(** C9 - For every input, absent or any string, the provider normalizer
    returns a provider kind or nothing, and never throws.  It agrees with
    the match of the trimmed, lowered input written out case by case; it
    returns a kind exactly when the trimmed input is the name of that kind
    but for the case of its letters, or is the alias [imsg] but for case and
    the kind is imessage; it returns nothing exactly when the trimmed input
    is none of the seven words but for case; two inputs whose trimmed texts
    agree but for case get the same answer; two ASCII inputs that differ
    only in the case of their letters get the same answer; and an absent,
    empty or blank input gives nothing.  Case is what [toLowerCase] of the
    runtime makes of it, and the runtime is asked to treat ASCII text as
    JavaScript does. *)
Theorem normalizeChatProvider_matches :
  asciiRuntime →
  ∀ raw,
    let text := trim (default "" raw) in
    normalizeChatProvider raw = normalizeProvider_spec raw
    ∧ (∀ p, normalizeChatProvider raw = Some p ↔
         sameButCase text (providerName p)
         ∨ (p = imessage ∧ sameButCase text "imsg"))
    ∧ (normalizeChatProvider raw = None ↔
         ∀ word, word ∈ providerWords → ¬ sameButCase text word)
    ∧ (∀ raw', sameButCase (trim (default "" raw')) text →
         normalizeChatProvider raw' = normalizeChatProvider raw)
    ∧ (∀ raw', isAscii (default "" raw) = true →
         isAscii (default "" raw') = true →
         toLowerCase_ascii (default "" raw') = toLowerCase_ascii (default "" raw) →
         normalizeChatProvider raw' = normalizeChatProvider raw)
    ∧ (raw = None ∨ (∃ w, raw = Some w ∧ allWhiteSpace w = true) →
       normalizeChatProvider raw = None).
Proof.
  intros Hrt raw text.
  assert (toLowerCase "imsg" = "imsg") as Himsg
    by (apply toLowerCase_word; [done|]; apply list_elem_of_here).
  split; [apply normalizeChatProvider_cases|].
  unfold sameButCase. rewrite Himsg. subst text.
  split; [|split; [|split; [|split]]].
  - intros p. rewrite (toLowerCase_providerName p Hrt).
    rewrite normalizeChatProvider_cases. unfold normalizeProvider_spec.
    generalize (toLowerCase (trim (default "" raw))). intros t.
    destruct p; simpl;
      repeat match goal with
             | |- context [String.eqb t ?s] =>
                 destruct (String.eqb_spec t s) as [->|?];
                 [intuition (discriminate || auto)|]
             end;
      intuition (discriminate || congruence).
  - rewrite normalizeChatProvider_cases. unfold normalizeProvider_spec.
    split.
    + intros Hnone word Hin Heq.
      rewrite (toLowerCase_word word Hrt Hin) in Heq. rewrite Heq in Hnone.
      unfold providerWords, CHAT_PROVIDERS in Hin. simpl in Hin.
      repeat (apply elem_of_cons in Hin as [->|Hin]; [done|]).
      by apply elem_of_nil in Hin.
    + intros Hnot.
      assert (∀ word, word ∈ providerWords →
                String.eqb (toLowerCase (trim (default "" raw))) word = false)
        as Hno.
      { intros word Hin. apply String.eqb_neq. intros Heq.
        apply (Hnot word Hin). by rewrite (toLowerCase_word word Hrt Hin). }
      unfold providerWords, CHAT_PROVIDERS in Hno.
      by rewrite !Hno by (simpl; set_solver).
  - intros raw' Hsame.
    by rewrite (normalizeChatProvider_lowered raw _ eq_refl),
      (normalizeChatProvider_lowered raw' _ eq_refl), Hsame.
  - intros raw' Hascii Hascii' Hcase.
    rewrite (normalizeChatProvider_lowered raw _ eq_refl),
      (normalizeChatProvider_lowered raw' _ eq_refl).
    by rewrite !toLowerCase_trim_ascii, Hcase.
  - intros Hblank.
    by rewrite (normalizeChatProvider_lowered raw "" (trim_blank raw Hrt Hblank)).
Qed.

End NormalizerProperties.

(** ** More on the commands *)

Section MoreCommands.
Context `{Host}.

(** A config file that exists and does not validate stops both commands
    before they look at their flags: the issues are reported, the process
    exits with status 1, and nothing is written. *)
Theorem invalid_config_stops_commands snapshot opts ropts confirmed :
  snap_exists snapshot = true → snap_valid snapshot = false →
  ∃ report,
    providersAddCommand snapshot opts
    = [EError report; EError "Fix the config or run clawdbot doctor."; EExit 1]
    ∧ providersRemoveCommand snapshot ropts confirmed
      = [EError report; EError "Fix the config or run clawdbot doctor."; EExit 1].
Proof.
  intros He Hv. unfold providersAddCommand, providersRemoveCommand, requireValidConfig.
  rewrite He, Hv. simpl. eexists. split; reflexivity.
Qed.

Ltac reject_with :=
  left; eexists; split; [|reflexivity];
  first [ by apply Rejected_telegram_env; [| |apply String.eqb_neq]
        | by apply Rejected_discord_env; [| |apply String.eqb_neq]
        | by apply Rejected_slack_env; [| |apply String.eqb_neq]
        | by apply Rejected_telegram_token
        | by apply Rejected_discord_token
        | apply Rejected_slack_tokens; [done| |done]; intros [? ?]; congruence
        | by apply Rejected_signal ].

(** The flag-driven add command ends in one of two ways.  Either one of the
    listed validation failures holds and the command reports it and exits
    with status 1; or it writes the config once, the document being the add
    patch of the request, and logs the account added.  So the listed
    failures are the only ones, and a passing request is written exactly
    once. *)
Theorem add_command_outcome snapshot opts :
  usable snapshot →
  (∃ msg, AddRejected opts msg
          ∧ providersAddCommand snapshot opts = [EError msg; EExit 1])
  ∨ (∃ p, normalizeChatProvider (ProvidersAddOptions.provider opts) = Some p
          ∧ providersAddCommand snapshot opts
            = [EWriteConfig
                 (applyProviderAccountConfig (snap_config snapshot) (requestOf opts p));
               ELog ("Added " ++ providerName p ++ " account " ++ quote
                     ++ normalizeAccountId (ProvidersAddOptions.account opts)
                     ++ quote ++ ".")]).
Proof.
  intros Hu. unfold providersAddCommand, requestOf.
  rewrite (requireValidConfig_usable _ Hu). destruct Hu as [_ ->]. simpl.
  destruct (normalizeChatProvider (ProvidersAddOptions.provider opts)) as [p|] eqn:Hp.
  2:{ left. eexists. split; [by apply Rejected_unknown|done]. }
  assert (∀ o : option bool,
            match o with Some true => true | _ => false end = false →
            o ≠ Some true) as Hflag.
  { by intros [[|]|]. }
  destruct (match ProvidersAddOptions.useEnv opts with Some true => true | _ => false end)
    eqn:Henv;
    [ assert (ProvidersAddOptions.useEnv opts = Some true)
        by (by destruct (ProvidersAddOptions.useEnv opts) as [[|]|])
    | apply Hflag in Henv ];
    destruct (String.eqb _ DEFAULT_ACCOUNT_ID) eqn:Hid;
    destruct p; simpl;
    repeat match goal with
           | |- context [present ?o] => destruct (present o) eqn:?; simpl
           end;
    first [ reject_with | right; eexists; split; [done|reflexivity] ].
Qed.

(** Without [--delete] the remove command never deletes: what it writes, if
    anything, still holds every key of the document, every account entry
    and every field of the provider section other than the [enabled] flag
    it sets; and it writes only once the prompt is confirmed. *)
Theorem remove_without_delete_keeps_config snapshot opts confirmed p doc :
  usable snapshot →
  normalizeChatProvider (ProvidersRemoveOptions.provider opts) = Some p →
  ProvidersRemoveOptions.delete_ opts ≠ Some true →
  EWriteConfig doc ∈ providersRemoveCommand snapshot opts confirmed →
  let cfg := snap_config snapshot in
  confirmed = true
  ∧ (∀ k, k ≠ providerName p → own doc !! k = own cfg !! k)
  ∧ (∀ k, k ≠ "enabled" → k ≠ "accounts" →
       get (get doc (providerName p)) k = get (get cfg (providerName p)) k)
  ∧ (∀ id, id ≠ accountKeyOf opts →
       get (get (get doc (providerName p)) "accounts") id
       = get (get (get cfg (providerName p)) "accounts") id).
Proof.
  intros Hu Hp Hdel Hin cfg.
  pose proof (providersRemoveCommand_runs snapshot opts confirmed p Hu Hp) as Hrun.
  simpl in Hrun.
  destruct (ProvidersRemoveOptions.delete_ opts) as [[|]|]; try done;
    (destruct confirmed;
     [ destruct Hrun as [line Hrun]
     | rewrite Hrun in Hin; by apply elem_of_nil in Hin ]);
    (rewrite Hrun in Hin;
     apply elem_of_cons in Hin as [Hd|Hin];
     [ injection Hd as ->
     | apply elem_of_cons in Hin as [?|Hin]; [done|by apply elem_of_nil in Hin] ]).
  all: split; [done|].
  all: fold (accountKeyOf opts).
  all: rewrite setAccountEnabled_enableStep, !get_upd_eq.
  all: assert (get (object [Spread (snap_config snapshot)]) (providerName p)
               = get cfg (providerName p)) as ->
         by (unfold get, object; simpl; by rewrite (right_id_L ∅ (∪))).
  all: set (sec := get cfg (providerName p)).
  all: split; [|split].
  all: try (intros k Hk; unfold upd, object; simpl;
            by rewrite lookup_insert_ne, (right_id_L ∅ (∪))).
  all: try (intros k Hk1 Hk2; unfold enableStep;
            destruct p; try destruct (_ && _); unfold flatStep;
            first [ by rewrite get_entryStep_other, get_patch_None
                  | by rewrite get_patch_None by by rewrite lookup_singleton_ne ]).
  all: intros id Hid; unfold enableStep;
       destruct p; try destruct (_ && _); unfold flatStep;
       first [ by rewrite entry_entryStep_ne | by rewrite get_patch_None ].
Qed.

End MoreCommands.

(** ** More on the provider normalizer *)

Section MoreNormalizer.
Context `{Host}.

(** Round trip of the provider names: the name of a provider kind, or the
    alias [imsg] for imessage, in any mix of upper and lower case and with
    any white space around it, normalizes to that kind; letters and white
    space are those of ASCII, which the runtime treats as JavaScript
    does. *)
Theorem normalizeChatProvider_round_trip p pre s post :
  asciiRuntime →
  allWhiteSpace pre = true → allWhiteSpace post = true →
  toLowerCase_ascii s = providerName p
  ∨ (toLowerCase_ascii s = "imsg" ∧ p = imessage) →
  normalizeChatProvider (Some (pre ++ s ++ post)) = Some p.
Proof.
  intros Hrt Hpre Hpost Hs.
  assert (isAscii s = true ∧ startsSolid s = true
          ∧ startsSolid (String.rev s) = true) as (Hascii & Hx & Hrx).
  { rewrite <- isAscii_toLowerCase_ascii, <- startsSolid_toLowerCase_ascii,
      <- (startsSolid_toLowerCase_ascii (String.rev s)),
      <- rev_toLowerCase_ascii.
    destruct Hs as [->|[-> _]]; [by destruct p|done]. }
  assert (isAscii (pre ++ s ++ post) = true) as Hall.
  { by rewrite !isAscii_append, Hascii, !allWhiteSpace_isAscii. }
  rewrite (normalizeChatProvider_lowered _ (toLowerCase_ascii s)).
  - destruct Hs as [->|[-> ->]]; [by destruct p|done].
  - simpl. destruct (Hrt _ Hall) as [-> _].
    rewrite trim_ascii_padding by done.
    by destruct (Hrt s Hascii) as [_ ->].
Qed.

End MoreNormalizer.

(** ** The status command *)

Section StatusProperties.
Context `{Terminal}.

Lemma accountLine_outcome label account :
  if isNullish account
  then ∃ err, accountLine label account = Thrown err
  else ∃ line, accountLine label account = Returned line.
Proof. destruct account; simpl; by eexists. Qed.

Lemma accountLines_outcome label accounts :
  if existsb isNullish accounts
  then ∃ err, accountLines label accounts = Thrown err
  else ∃ lines, accountLines label accounts = Returned lines
                ∧ length lines = length accounts.
Proof.
  induction accounts as [|account rest IH]; simpl; [by eexists|].
  pose proof (accountLine_outcome label account) as Hline.
  destruct (isNullish account); simpl.
  - destruct Hline as [err ->]. by eexists.
  - destruct Hline as [line ->].
    destruct (existsb isNullish rest).
    + destruct IH as [err ->]. by eexists.
    + destruct IH as (lines & -> & Hlen). eexists. split; [done|].
      simpl. by rewrite Hlen.
Qed.

Lemma pushAccounts_outcome data label field lines :
  isNullish data = false →
  if existsb isNullish (recordsOf data field)
  then ∃ err, pushAccounts data label field lines = Thrown err
  else ∃ lines', pushAccounts data label field lines = Returned lines'
                 ∧ length lines' = length lines + length (recordsOf data field).
Proof.
  intros Hdata. unfold pushAccounts, recordsOf.
  assert (read data field = Returned (get data field)) as ->.
  { by destruct data. }
  destruct (get data field) as [| | | | | |accounts|]; simpl;
    try (eexists; split; [done|lia]).
  pose proof (accountLines_outcome label accounts) as Hacc.
  destruct (existsb isNullish accounts).
  - destruct Hacc as [err ->]. by eexists.
  - destruct Hacc as (more & -> & Hlen). eexists. split; [done|].
    rewrite length_app. lia.
Qed.

Lemma pushSections_outcome data sections lines :
  isNullish data = false →
  let records := concat (map (λ section, recordsOf data section.2) sections) in
  if existsb isNullish records
  then ∃ err, pushSections data sections lines = Thrown err
  else ∃ lines', pushSections data sections lines = Returned lines'
                 ∧ length lines' = length lines + length records.
Proof.
  intros Hdata. revert lines.
  induction sections as [|[label field] rest IH]; intros lines; simpl.
  - eexists. split; [done|lia].
  - rewrite existsb_app, length_app.
    pose proof (pushAccounts_outcome data label field lines Hdata) as Hpush.
    destruct (existsb isNullish (recordsOf data field)); simpl.
    + destruct Hpush as [err ->]. by eexists.
    + destruct Hpush as (lines1 & -> & Hlen1).
      specialize (IH lines1). simpl in IH.
      destruct (existsb isNullish _).
      * done.
      * destruct IH as (lines2 & -> & Hlen2). eexists. split; [done|]. lia.
Qed.

(** The readable status is rendered whole or not at all.  When the payload
    or one of its account records is [null] or [undefined], nothing is
    logged and the gateway is reported as not reachable, with exit status 1,
    although it answered.  Otherwise there is one log, of the header line
    and of one line for each account record of the six sections. *)
Theorem status_rendered_whole_or_not payload :
  let trace := providersStatusCommand None (Returned payload) in
  if hasNullRecord payload
  then ∃ err, trace = [EError ("Gateway not reachable: " ++ err); EExit 1]
  else ∃ lines, statusLines payload = Returned lines
                ∧ trace = [ELog (join newline lines)]
                ∧ length lines = 1 + length (allRecords payload).
Proof.
  intros trace. subst trace.
  unfold hasNullRecord, providersStatusCommand, statusLines.
  destruct (isNullish payload) eqn:Hnull; cbn [orb].
  - destruct payload; try done; simpl; by eexists.
  - pose proof (pushSections_outcome payload statusSections
                  [green "Gateway reachable."] Hnull) as Hpush.
    cbv zeta in Hpush.
    change (concat _) with (allRecords payload) in Hpush.
    destruct (existsb isNullish (allRecords payload)).
    + destruct Hpush as [err ->]. by eexists.
    + destruct Hpush as (lines & -> & Hlen). eexists. by repeat split.
Qed.

End StatusProperties.

(** ** The Feishu client *)

Lemma dropSlashes_spec s :
  ∃ n, s = slashes n ++ dropSlashes s
       ∧ match dropSlashes s with
         | String c _ => Ascii.eqb c "/" = false
         | EmptyString => True
         end.
Proof.
  induction s as [|c s (n & Hs & Hhead)]; simpl.
  - by exists 0.
  - destruct (Ascii.eqb c "/") eqn:Hc.
    + apply Ascii.eqb_eq in Hc as ->. exists (S n).
      split; [|done]. change (String "/" s = String "/" (slashes n ++ dropSlashes s)).
      by rewrite <- Hs.
    + by exists 0.
Qed.

Lemma rev_slashes n : String.rev (slashes n) = slashes n.
Proof.
  induction n as [|n IH]; [done|]. simpl. rewrite rev_cons, IH.
  clear IH. induction n as [|n IH]; [done|].
  simpl. rewrite append_cons. by rewrite IH.
Qed.

(** A custom Feishu domain loses the slashes at its end and nothing else:
    the URL handed to the SDK does not end in a slash, and the configured
    domain is that URL followed by slashes only. *)
Theorem resolveDomain_custom_url dom :
  dom ≠ "lark" → dom ≠ "feishu" →
  ∃ url n,
    resolveDomain dom = Domain_url url
    ∧ endsWithSlash url = false
    ∧ dom = url ++ slashes n.
Proof.
  intros Hl Hf. unfold resolveDomain.
  apply String.eqb_neq in Hl, Hf. rewrite Hl, Hf.
  destruct (dropSlashes_spec (String.rev dom)) as (n & Hrev & Hhead).
  exists (withoutTrailingSlashes dom), n. split; [done|]. split.
  - unfold endsWithSlash, withoutTrailingSlashes. rewrite rev_involutive.
    by destruct (dropSlashes (String.rev dom)).
  - unfold withoutTrailingSlashes.
    rewrite <- (rev_involutive dom) at 1. rewrite Hrev at 1.
    by rewrite rev_append, rev_slashes.
Qed.

Section FeishuClientProperties.
Variable resolveFeishuCredentials : value → option FeishuCredentials.

Lemma sameCredentials_refl creds : sameCredentials creds creds = true.
Proof. unfold sameCredentials. by rewrite !String.eqb_refl. Qed.

Lemma sameCredentials_eq a b : sameCredentials a b = true → a = b.
Proof.
  unfold sameCredentials. intros [[Ha Hs]%andb_true_iff Hd]%andb_true_iff.
  apply String.eqb_eq in Ha, Hs, Hd. destruct a, b. simpl in *. by subst.
Qed.

(** The client cache answers a second request for the same credentials
    with the same client: nothing is built, and the cache stays as it is. *)
Theorem createFeishuClient_cached cfg cfg' cache client cache' :
  createFeishuClient resolveFeishuCredentials cfg cache = (Returned client, cache') →
  resolveFeishuCredentials cfg' = resolveFeishuCredentials cfg →
  createFeishuClient resolveFeishuCredentials cfg' cache' = (Returned client, cache').
Proof.
  unfold createFeishuClient. intros Hfirst ->.
  destruct (resolveFeishuCredentials cfg) as [creds|]; [|done].
  destruct (cachedClient cache) as [c0|] eqn:Hc;
    destruct (cachedConfig cache) as [k0|] eqn:Hk;
    try (injection Hfirst as <- <-; simpl; by rewrite sameCredentials_refl).
  destruct (sameCredentials k0 creds) eqn:Hsame.
  - injection Hfirst as <- <-. by rewrite Hc, Hk, Hsame.
  - injection Hfirst as <- <-. simpl. by rewrite sameCredentials_refl.
Qed.

(** The cache never hands out a client of other credentials: from a
    coherent cache, the client returned for a config is built from the
    credentials of that config, with its domain resolved, and the cache is
    coherent again; clearing the cache keeps it coherent. *)
Theorem createFeishuClient_coherent cfg cache client cache' creds :
  Coherent cache →
  createFeishuClient resolveFeishuCredentials cfg cache = (Returned client, cache') →
  resolveFeishuCredentials cfg = Some creds →
  client_appId client = appId creds
  ∧ client_appSecret client = appSecret creds
  ∧ client_domain client = resolveDomain (domain creds)
  ∧ Coherent cache'
  ∧ Coherent (clearClientCache cache').
Proof.
  unfold createFeishuClient, Coherent. intros Hcoh Hcreate Hres.
  rewrite Hres in Hcreate.
  destruct (cachedClient cache) as [c0|] eqn:Hc;
    destruct (cachedConfig cache) as [k0|] eqn:Hk;
    try (injection Hcreate as <- <-; simpl; repeat split; lia).
  destruct (sameCredentials k0 creds) eqn:Hsame.
  - apply sameCredentials_eq in Hsame as ->.
    injection Hcreate as <- <-. rewrite Hc, Hk. simpl.
    destruct Hcoh as (? & ? & ? & ?). by repeat split.
  - injection Hcreate as <- <-. simpl. repeat split; lia.
Qed.

(** After [clearClientCache] the next request builds a new client, an
    object other than the one that was cached. *)
Theorem createFeishuClient_after_clear cfg cache old client cache' :
  Coherent cache →
  cachedClient cache = Some old →
  is_Some (cachedConfig cache) →
  createFeishuClient resolveFeishuCredentials cfg (clearClientCache cache)
  = (Returned client, cache') →
  serial client ≠ serial old ∧ built cache' = S (built cache).
Proof.
  unfold createFeishuClient, Coherent, clearClientCache.
  intros Hcoh Hold [config Hconfig] Hcreate.
  rewrite Hold, Hconfig in Hcoh. destruct Hcoh as (_ & _ & _ & Hlt).
  destruct (resolveFeishuCredentials cfg) as [creds|]; [|done].
  simpl in Hcreate. injection Hcreate as <- <-. simpl. split; lia.
Qed.

End FeishuClientProperties.

(** * The properties on concrete documents *)

Section Examples.
Local Existing Instance exampleHost.

Lemma add_account_merges_witness :
  requested (nameOnly telegram "default" "Home") "botToken" = false
  ∧ get (accountRecord
           (applyProviderAccountConfig docTelegramFlat
              (nameOnly telegram "default" "Home"))
           telegram "default") "botToken"
    = VStr "abc".
Proof.
  split; [reflexivity|].
  exact (add_account_merges docTelegramFlat (nameOnly telegram "default" "Home")
           "botToken" ltac:(discriminate) eq_refl ltac:(discriminate)).
Defined.

Lemma add_named_account_enables_section_witness :
  let doc := applyProviderAccountConfig docDiscordDisabled
               (tokenOnly discord "work" "xyz") in
  get (get docDiscordDisabled "discord") "enabled" = VBool false
  ∧ get (get doc "discord") "enabled" = VBool true
  ∧ get (get (get (get doc "discord") "accounts") "work") "enabled" = VBool true.
Proof.
  split; [reflexivity|].
  exact (add_named_account_enables_section docDiscordDisabled
           (tokenOnly discord "work" "xyz")
           ltac:(discriminate) ltac:(vm_compute; discriminate)).
Defined.

(** The section of [docTelegramFlat] still holds [webhookUrl] once its
    singleton fields are cleared, and the delete removes it all the same. *)
Lemma delete_default_clears_in_place_counterexample :
  ¬ sectionClearedInPlace docTelegramFlat telegram.
Proof.
  unfold sectionClearedInPlace. intros Hclaim.
  assert (∃ k, get (patch (own (clearedSingletons telegram))
                      (get docTelegramFlat (providerName telegram))) k ≠ VUndef)
    as Hstate.
  { exists "webhookUrl". vm_compute. discriminate. }
  specialize (Hclaim Hstate). vm_compute in Hclaim. discriminate.
Qed.

Lemma delete_default_without_accounts_witness :
  hasAccounts (get docTelegramFlat "telegram") = false
  ∧ own (deleteAccount docTelegramFlat "default" telegram) !! "telegram" = None.
Proof.
  split; [reflexivity|].
  exact (proj1 (delete_default_without_accounts docTelegramFlat telegram
                  ltac:(discriminate) eq_refl)).
Defined.

(** [botToken] of the section of [docTelegramNamed] is not part of the
    accounts map, and the delete of the default account clears it. *)
Lemma delete_default_only_accounts_counterexample :
  ¬ onlyAccountsChange docTelegramNamed telegram.
Proof.
  unfold onlyAccountsChange. intros Hclaim.
  specialize (Hclaim "botToken" ltac:(discriminate)).
  vm_compute in Hclaim. discriminate.
Qed.

Lemma delete_default_with_accounts_witness :
  let sec' := get (deleteAccount docTelegramNamed "default" telegram) "telegram" in
  hasAccounts (get docTelegramNamed "telegram") = true
  ∧ get (get (get sec' "accounts") "work") "botToken" = VStr "w"
  ∧ get sec' "botToken" = VUndef.
Proof.
  split; [reflexivity|].
  destruct (delete_default_with_accounts docTelegramNamed telegram
              ltac:(discriminate) eq_refl) as (Hsurvive & _ & Hcleared & _).
  split.
  - exact (f_equal (λ entry, get entry "botToken")
             (Hsurvive "work" ltac:(discriminate))).
  - apply Hcleared. vm_compute. apply list_elem_of_here.
Defined.

Lemma set_account_enabled_semantics_witness :
  let flat := get (setAccountEnabled docTelegramFlat "default" telegram false)
                  "telegram" in
  let named := get (setAccountEnabled docTelegramNamed "default" telegram false)
                   "telegram" in
  (get flat "enabled" = VBool false ∧ get flat "accounts" = VUndef)
  ∧ get (get (get named "accounts") "default") "enabled" = VBool false.
Proof.
  split.
  - destruct (set_account_enabled_semantics docTelegramFlat "default" telegram false)
      as (_ & Hflat & _).
    destruct (Hflat ltac:(discriminate) eq_refl eq_refl) as (Hen & Hacc & _).
    exact (conj Hen Hacc).
  - destruct (set_account_enabled_semantics docTelegramNamed "default" telegram false)
      as (_ & _ & _ & Hnamed).
    exact (proj1 (Hnamed ltac:(discriminate) eq_refl eq_refl)).
Defined.


Lemma add_rejected_before_any_write_witness :
  usable emptySnapshot
  ∧ providersAddCommand emptySnapshot slackWorkEnv
    = [EError "Slack env tokens can only be used for the default account.";
       EExit 1].
Proof.
  assert (usable emptySnapshot) as Husable by (split; reflexivity).
  split; [exact Husable|].
  refine (proj2 (add_rejected_before_any_write emptySnapshot slackWorkEnv _
                   (Rejected_slack_env slackWorkEnv eq_refl eq_refl _))
                Husable).
  vm_compute. discriminate.
Defined.

Lemma normalizeChatProvider_matches_witness :
  asciiRuntime
  ∧ normalizeChatProvider (Some "  TeleGram ") = Some telegram
  ∧ normalizeChatProvider (Some "  telegram ") = Some telegram
  ∧ normalizeChatProvider (Some "IMSG") = Some imessage
  ∧ normalizeChatProvider (Some "sms") = None
  ∧ normalizeChatProvider (Some "   ") = None.
Proof.
  assert asciiRuntime as Hrt by (intros s _; split; reflexivity).
  destruct (normalizeChatProvider_matches Hrt (Some "  TeleGram "))
    as (_ & Hkind & _ & _ & Hcase & _).
  destruct (normalizeChatProvider_matches Hrt (Some "IMSG"))
    as (_ & Halias & _).
  destruct (normalizeChatProvider_matches Hrt (Some "sms"))
    as (_ & _ & Hnone & _).
  destruct (normalizeChatProvider_matches Hrt (Some "   "))
    as (_ & _ & _ & _ & _ & Hblank).
  assert (normalizeChatProvider (Some "  TeleGram ") = Some telegram) as Hmixed
    by (apply Hkind; left; reflexivity).
  split; [exact Hrt|]. split; [exact Hmixed|]. split; [|split; [|split]].
  - rewrite <- Hmixed. apply Hcase; reflexivity.
  - apply Halias. right. split; reflexivity.
  - apply Hnone. intros word Hin Hsame.
    unfold providerWords, CHAT_PROVIDERS in Hin. simpl in Hin.
    repeat (apply elem_of_cons in Hin as [->|Hin];
            [vm_compute in Hsame; discriminate|]).
    by apply elem_of_nil in Hin.
  - apply Hblank. right. exists "   ". split; reflexivity.
Defined.

(** The normalizer on the inputs of the specification. *)
Example normalizeChatProvider_alias :
  normalizeChatProvider (Some "IMSG") = Some imessage.
Proof. reflexivity. Qed.

Example normalizeChatProvider_empty :
  normalizeChatProvider None = None ∧ normalizeChatProvider (Some "   ") = None.
Proof. split; reflexivity. Qed.

Example normalizeChatProvider_unknown :
  normalizeChatProvider (Some "sms") = None.
Proof. reflexivity. Qed.

(** Adding the named Discord account [work] and then the default Discord
    account: the token of the default account goes on the section and the
    entry of [work] is untouched. *)
Example discord_named_then_default :
  let named := applyProviderAccountConfig (object [])
                 (tokenOnly discord "work" "xyz") in
  let both := applyProviderAccountConfig named
                 (tokenOnly discord "default" "abc") in
  get (get (get named "discord") "accounts") "work"
    = object ["token" ::: VStr "xyz"; "enabled" ::: VBool true]
  ∧ get (get both "discord") "token" = VStr "abc"
  ∧ get (get (get both "discord") "accounts") "work"
    = get (get (get named "discord") "accounts") "work".
Proof. vm_compute. repeat split. Qed.

End Examples.

(** * The further properties on concrete documents *)

Section MoreExamples.
Local Existing Instance exampleHost.

Lemma add_account_touches_one_section_witness :
  own (applyProviderAccountConfig docTelegramFlat (tokenOnly discord "default" "xyz"))
    !! "telegram"
  = own docTelegramFlat !! "telegram".
Proof.
  exact (add_account_touches_one_section (H:=exampleHost) docTelegramFlat
           (tokenOnly discord "default" "xyz") "telegram" ltac:(discriminate)).
Defined.

Lemma add_account_keeps_other_accounts_witness :
  get (get (get (applyProviderAccountConfig docTelegramNamed
                   (tokenOnly telegram "home" "h")) "telegram") "accounts") "work"
  = get (get (get docTelegramNamed "telegram") "accounts") "work".
Proof.
  exact (add_account_keeps_other_accounts (H:=exampleHost) docTelegramNamed
           (tokenOnly telegram "home" "h") "work"
           ltac:(vm_compute; discriminate) ltac:(vm_compute; discriminate)).
Defined.

Lemma applyAccountName_writes_name_witness :
  get (accountRecord (applyAccountName docTelegramFlat telegram "default"
                        (Some " Home ")) telegram "default") "name"
  = VStr "Home".
Proof.
  destruct (applyAccountName_writes_name (H:=exampleHost) docTelegramFlat telegram "default" " Home ")
    as (_ & _ & Hnamed).
  exact (proj1 (Hnamed ltac:(vm_compute; discriminate))).
Defined.

Lemma telegram_tokenFile_before_token_witness :
  let doc := applyProviderAccountConfig docTelegramFlat
               (tokenAndFile "default" "/run/token" "new") in
  get (get doc "telegram") "tokenFile" = VStr "/run/token"
  ∧ get (get doc "telegram") "botToken" = VStr "abc".
Proof.
  exact (telegram_tokenFile_before_token (H:=exampleHost) docTelegramFlat
           (tokenAndFile "default" "/run/token" "new") "/run/token"
           eq_refl eq_refl ltac:(discriminate) ltac:(discriminate)).
Defined.

Lemma signal_fields_stored_witness :
  let record := accountRecord
                  (applyProviderAccountConfig (object [])
                     (signalRequest "default" "+15550100" "8080"))
                  signal "default" in
  get record "account" = VStr "+15550100" ∧ get record "httpPort" = VNum 8080.
Proof.
  destruct (signal_fields_stored (H:=exampleHost) (object [])
              (signalRequest "default" "+15550100" "8080") eq_refl)
    as (Hnumber & _ & _ & _ & Hport).
  split.
  - exact (Hnumber "+15550100" eq_refl ltac:(discriminate)).
  - exact (Hport "8080" eq_refl ltac:(discriminate)).
Defined.

Lemma useEnv_default_writes_no_credential_witness :
  get (get (applyProviderAccountConfig docDiscordToken
              (tokenFromEnv discord "default" "new")) "discord") "token"
  = VStr "old".
Proof.
  exact (useEnv_default_writes_no_credential (H:=exampleHost) docDiscordToken
           (tokenFromEnv discord "default" "new") "token"
           (or_intror (or_introl eq_refl)) eq_refl eq_refl
           ltac:(discriminate) ltac:(discriminate) ltac:(discriminate)).
Defined.

Lemma setAccountEnabled_keeps_config_witness :
  let doc := setAccountEnabled docTelegramNamed "home" telegram false in
  get (get (get doc "telegram") "accounts") "work"
    = get (get (get docTelegramNamed "telegram") "accounts") "work"
  ∧ get (get doc "telegram") "botToken" = VStr "abc".
Proof.
  destruct (setAccountEnabled_keeps_config (H:=exampleHost) docTelegramNamed "home" telegram false)
    as (Hothers & Hfields & _).
  split.
  - exact (Hothers "work" ltac:(discriminate)).
  - exact (Hfields "botToken" ltac:(discriminate) ltac:(discriminate)).
Defined.

Lemma delete_named_account_removes_entry_witness :
  let doc := deleteAccount docTelegramNamed "work" telegram in
  get (get (get doc "telegram") "accounts") "work" = VUndef
  ∧ get (get doc "telegram") "botToken" = VStr "abc".
Proof.
  assert ("work" ≠ DEFAULT_ACCOUNT_ID) as Hnamed by discriminate.
  destruct (delete_named_account_removes_entry (H:=exampleHost)
              docTelegramNamed "work" telegram (or_intror Hnamed))
    as (Hgone & _ & Hfields & _).
  split; [exact Hgone|].
  rewrite Hfields by discriminate. reflexivity.
Defined.

Lemma delete_account_idempotent_witness :
  deleteAccount (deleteAccount docTelegramNamed "work" telegram) "work" telegram
  = deleteAccount docTelegramNamed "work" telegram.
Proof.
  apply (delete_account_idempotent (H:=exampleHost)).
  right; left. discriminate.
Defined.

Lemma delete_default_twice_witness :
  let once := deleteAccount docTelegramDefaultEntry "default" telegram in
  let twice := deleteAccount once "default" telegram in
  is_Some (own once !! "telegram") ∧ own twice !! "telegram" = None.
Proof.
  destruct (delete_default_twice (H:=exampleHost) docTelegramDefaultEntry telegram
              {[ "default" := object ["enabled" ::: VBool true] ]}
              ltac:(discriminate) eq_refl
              ltac:(intros E; apply (f_equal size) in E; vm_compute in E; discriminate)
              ltac:(vm_compute; reflexivity))
    as ((Hkept & _) & Hgone).
  exact (conj Hkept Hgone).
Defined.

Lemma add_then_delete_account_witness :
  let doc := deleteAccount
               (applyProviderAccountConfig docTelegramNamed
                  (tokenOnly telegram "home" "h")) "home" telegram in
  get (get (get doc "telegram") "accounts") "home" = VUndef
  ∧ get (get (get doc "telegram") "accounts") "work"
    = get (get (get docTelegramNamed "telegram") "accounts") "work".
Proof.
  assert (normalizeAccountId (Some "home") ≠ DEFAULT_ACCOUNT_ID) as Hnamed
    by (vm_compute; discriminate).
  destruct (add_then_delete_account (H:=exampleHost) docTelegramNamed
              (tokenOnly telegram "home" "h") "work" (or_intror Hnamed))
    as (Hgone & Hothers).
  split; [exact Hgone|].
  apply Hothers; vm_compute; discriminate.
Defined.

Lemma disable_then_add_default_witness :
  let disabled := setAccountEnabled docTelegramNamed "default" telegram false in
  let doc := applyProviderAccountConfig disabled (tokenOnly telegram "default" "new") in
  get (get doc "telegram") "enabled" = VBool true
  ∧ get (get (get (get doc "telegram") "accounts") "default") "enabled" = VBool false.
Proof.
  exact (disable_then_add_default (H:=exampleHost) docTelegramNamed (tokenOnly telegram "default" "new")
           {[ "work" := object ["botToken" ::: VStr "w"] ]}
           ltac:(discriminate) eq_refl eq_refl eq_refl).
Defined.

Lemma invalid_config_stops_commands_witness :
  ∃ report,
    providersAddCommand invalidSnapshot slackWorkEnv
    = [EError report; EError "Fix the config or run clawdbot doctor."; EExit 1]
    ∧ providersRemoveCommand invalidSnapshot disableTelegramWork true
      = [EError report; EError "Fix the config or run clawdbot doctor."; EExit 1].
Proof.
  exact (invalid_config_stops_commands (H:=exampleHost) invalidSnapshot slackWorkEnv
           disableTelegramWork true eq_refl eq_refl).
Defined.

Lemma add_command_outcome_witness :
  (∃ msg, AddRejected slackWorkEnv msg
          ∧ providersAddCommand emptySnapshot slackWorkEnv = [EError msg; EExit 1])
  ∨ (∃ p, normalizeChatProvider (ProvidersAddOptions.provider slackWorkEnv) = Some p
          ∧ providersAddCommand emptySnapshot slackWorkEnv
            = [EWriteConfig
                 (applyProviderAccountConfig (snap_config emptySnapshot)
                    (requestOf slackWorkEnv p));
               ELog ("Added " ++ providerName p ++ " account " ++ quote
                     ++ normalizeAccountId (ProvidersAddOptions.account slackWorkEnv)
                     ++ quote ++ ".")]).
Proof.
  exact (add_command_outcome (H:=exampleHost) emptySnapshot slackWorkEnv (conj eq_refl eq_refl)).
Defined.

Lemma remove_without_delete_keeps_config_witness :
  let doc := setAccountEnabled (object [Spread docTelegramNamed]) "work" telegram false in
  get (get doc "telegram") "botToken" = VStr "abc".
Proof.
  assert (EWriteConfig
            (setAccountEnabled (object [Spread docTelegramNamed]) "work" telegram false)
          ∈ providersRemoveCommand telegramSnapshot disableTelegramWork true) as Hin.
  { apply list_elem_of_here. }
  destruct (remove_without_delete_keeps_config (H:=exampleHost) telegramSnapshot disableTelegramWork
              true telegram _ (conj eq_refl eq_refl) eq_refl ltac:(discriminate) Hin)
    as (_ & _ & Hfields & _).
  exact (Hfields "botToken" ltac:(discriminate) ltac:(discriminate)).
Defined.

End MoreExamples.

Lemma normalizeChatProvider_round_trip_witness :
  asciiRuntime (H:=exampleHost)
  ∧ normalizeChatProvider (H:=exampleHost) (Some ("  " ++ "TeleGram" ++ " "))
    = Some telegram.
Proof.
  assert (asciiRuntime (H:=exampleHost)) as Hrt
    by (intros s _; split; reflexivity).
  split; [exact Hrt|].
  apply (normalizeChatProvider_round_trip (H:=exampleHost)
           telegram "  " "TeleGram" " " Hrt);
    [reflexivity|reflexivity|left; reflexivity].
Defined.

Lemma resolveDomain_custom_url_witness :
  ∃ url n,
    resolveDomain "https://open.example.com//" = Domain_url url
    ∧ endsWithSlash url = false
    ∧ "https://open.example.com//" = url ++ slashes n.
Proof.
  exact (resolveDomain_custom_url "https://open.example.com//"
           ltac:(discriminate) ltac:(discriminate)).
Defined.

Lemma createFeishuClient_cached_witness :
  let first := createFeishuClient exampleCredentials feishuConfig emptyCache in
  createFeishuClient exampleCredentials feishuConfig first.2 = first.
Proof.
  exact (createFeishuClient_cached exampleCredentials feishuConfig feishuConfig
           emptyCache _ _ eq_refl eq_refl).
Defined.

Lemma createFeishuClient_coherent_witness :
  let first := createFeishuClient exampleCredentials feishuConfig emptyCache in
  Coherent emptyCache
  ∧ first.1 = Returned {| serial := 0; client_appId := "cli_a";
                          client_appSecret := "s3";
                          client_domain := Domain_url "https://open.example.com" |}
  ∧ Coherent first.2.
Proof.
  assert (Coherent emptyCache) as Hempty by exact I.
  destruct (createFeishuClient_coherent exampleCredentials feishuConfig emptyCache
              _ _ _ Hempty eq_refl eq_refl) as (_ & _ & _ & Hcoh & _).
  split; [exact Hempty|]. split; [reflexivity|exact Hcoh].
Defined.

Lemma createFeishuClient_after_clear_witness :
  let first := createFeishuClient exampleCredentials feishuConfig emptyCache in
  let second := createFeishuClient exampleCredentials feishuConfig
                  (clearClientCache first.2) in
  ∃ old new, first.1 = Returned old ∧ second.1 = Returned new
             ∧ serial new ≠ serial old.
Proof.
  eexists _, _. split; [reflexivity|]. split; [reflexivity|].
  refine (proj1 (createFeishuClient_after_clear exampleCredentials feishuConfig
                   (createFeishuClient exampleCredentials feishuConfig emptyCache).2
                   _ _ _ _ eq_refl _ eq_refl)).
  - vm_compute. repeat split; lia.
  - by eexists.
Defined.
